(** * The dataset-graph encoder of [mindspore/train/callback/_dataset_graph.py]

    A shallow embedding of the class [DatasetGraph]: the JSON-shaped value
    that [json.loads] returns, the lineage messages the encoder fills, the
    five methods of the class as functions in an exception monad, and the
    properties of the encoder that follow from the code. *)

From Stdlib Require Import ZArith String List SpecFloat.
From stdpp Require Import base option list strings pretty gmap fin_maps.

#[local] Set Warnings "-clear-no-such-hyp".

Local Open Scope string_scope.
Local Open Scope list_scope.

(** ** Python values after [json.loads] *)

(** What [json.loads] can return: [None], [bool], [int] (unbounded), [float]
    (a binary64 number, kept as its IEEE-754 description, NaN and the
    infinities included), [str], [list] and [dict].  A [dict] keeps its
    insertion order, which is the order [items()] walks it in; its keys are
    strings.  A [str] is kept as its UTF-8 encoding: the strings of the model
    are those that have one.  [json.loads] builds a tree: no list or dict is
    shared between two places, so a value can stand for the object it
    describes. *)
#[warnings="-register-all"]
Inductive value : Type :=
| VNone
| VBool (b : bool)
| VInt (z : Z)
| VFloat (f : spec_float)
| VStr (s : string)
| VList (l : list value)
| VDict (d : list (string * value)).

Abbreviation dict := (list (string * value)).

(** The induction principle that reaches the elements of a list and the
    values of a dict. *)
Section value_induction.
Variable P : value → Prop.
Hypothesis HNone : P VNone.
Hypothesis HBool : ∀ b, P (VBool b).
Hypothesis HInt : ∀ z, P (VInt z).
Hypothesis HFloat : ∀ f, P (VFloat f).
Hypothesis HStr : ∀ s, P (VStr s).
Hypothesis HList : ∀ l, Forall P l → P (VList l).
Hypothesis HDict : ∀ d, Forall (λ kv, P (snd kv)) d → P (VDict d).

Fixpoint value_nested_ind (v : value) : P v :=
  match v with
  | VNone => HNone
  | VBool b => HBool b
  | VInt z => HInt z
  | VFloat f => HFloat f
  | VStr s => HStr s
  | VList l =>
      HList l
        ((fix elems (l : list value) : Forall P l :=
            match l with
            | [] => List.Forall_nil P
            | v :: l' => List.Forall_cons P v l' (value_nested_ind v) (elems l')
            end) l)
  | VDict d =>
      HDict d
        ((fix items (d : dict) : Forall (λ kv, P (snd kv)) d :=
            match d with
            | [] => List.Forall_nil _
            | kv :: d' =>
                List.Forall_cons (λ kv, P (snd kv)) kv d'
                  (value_nested_ind (snd kv)) (items d')
            end) d)
  end.
End value_induction.

(** [bool(value)], the test behind [if value:]. *)
Definition truthy (v : value) : bool :=
  match v with
  | VNone => false
  | VBool b => b
  | VInt z => negb (Z.eqb z 0)
  | VFloat (S754_zero _) => false
  | VFloat _ => true
  | VStr s => negb (String.eqb s "")
  | VList l => negb (bool_decide (l = []))
  | VDict d => negb (bool_decide (d = []))
  end.

(** The [isinstance] tests of the source.  [bool] is a subclass of [int] in
    Python, so [isinstance(True, int)] holds. *)
Definition isinstance_str (v : value) : bool :=
  match v with VStr _ => true | _ => false end.
Definition isinstance_bool (v : value) : bool :=
  match v with VBool _ => true | _ => false end.
Definition isinstance_int (v : value) : bool :=
  match v with VBool _ | VInt _ => true | _ => false end.
Definition isinstance_float (v : value) : bool :=
  match v with VFloat _ => true | _ => false end.
Definition isinstance_list (v : value) : bool :=
  match v with VList _ => true | _ => false end.
Definition is_None (v : value) : bool :=
  match v with VNone => true | _ => false end.

(** ** Exceptions *)

(** The exceptions the methods can raise: the [ValueError] of
    [_package_parameter], the ones Python raises itself when a value has
    not the shape the code expects, and the ones the message library raises
    when a value does not fit the field it is written to. *)
Inductive exception : Type :=
| ValueError (msg : string)
| KeyError (key : string)
| TypeError
| AttributeError
| OverflowError.

Inductive result (A : Type) : Type :=
| Ok (a : A)
| Err (e : exception).
Arguments Ok {A} a.
Arguments Err {A} e.

#[global] Instance result_ret : MRet result := λ A a, Ok a.
#[global] Instance result_bind : MBind result := λ A B f m,
  match m with
  | Ok a => f a
  | Err e => Err e
  end.
#[global] Instance result_fmap : FMap result := λ A B f m,
  match m with
  | Ok a => Ok (f a)
  | Err e => Err e
  end.

(** A [for] statement whose body may raise: the state is threaded through
    the elements in order, and the first exception ends the loop. *)
Fixpoint for_each {A S : Type} (body : A → S → result S) (l : list A) (s : S)
  : result S :=
  match l with
  | [] => Ok s
  | a :: l' => s' ← body a s; for_each body l' s'
  end.

(** A check applied to every element of a sequence in order: the checked
    elements, or the exception of the first element that fails. *)
Fixpoint check_all {A B : Type} (check : A → result B) (l : list A)
  : result (list B) :=
  match l with
  | [] => Ok []
  | a :: l' => b ← check a; bs ← check_all check l'; Ok (b :: bs)
  end.

(** [iter(value)], what a [for] statement walks: the elements of a list, the
    characters of a string, the keys of a dict; anything else is not
    iterable. *)
Fixpoint characters (s : string) : list value :=
  match s with
  | EmptyString => []
  | String c s' => VStr (String c EmptyString) :: characters s'
  end.

Definition iter (v : value) : result (list value) :=
  match v with
  | VList l => Ok l
  | VStr s => Ok (characters s)
  | VDict d => Ok (map (λ kv, VStr (fst kv)) d)
  | _ => Err TypeError
  end.

(** [operation.items()]: only a dict has the method. *)
Definition items (v : value) : result dict :=
  match v with
  | VDict d => Ok d
  | _ => Err AttributeError
  end.

(** ** Dict operations *)

(** [key in d] and [d.pop(key)] on the insertion-ordered items.  A Python
    dict holds a key once; [dict_wf] says so. *)
Fixpoint dict_get (key : string) (d : dict) : option value :=
  match d with
  | [] => None
  | (k, v) :: d' => if String.eqb k key then Some v else dict_get key d'
  end.

Fixpoint dict_delete (key : string) (d : dict) : dict :=
  match d with
  | [] => []
  | (k, v) :: d' =>
      if String.eqb k key then d' else (k, v) :: dict_delete key d'
  end.

Definition dict_contains (key : string) (d : dict) : bool :=
  match dict_get key d with Some _ => true | None => false end.

Definition dict_pop (key : string) (d : dict) : result (value * dict) :=
  match dict_get key d with
  | Some v => Ok (v, dict_delete key d)
  | None => Err (KeyError key)
  end.

Definition dict_wf (d : dict) : Prop := NoDup (map fst d).

(** ** The lineage messages *)

(** Modelled from the spec: the message classes of [lineage_pb2], which is
    generated code that is not among the sources.  A [DatasetGraph] has
    repeated [children], a [parameter] block, repeated [operations] and a
    [sampler]; an [Operation] has its [operationParam] block, the
    integer-list [size] and the real-list [weights]; an [OperationParameter]
    block holds five maps keyed by strings: string, boolean, integer, double
    and string-list.  The fields are typed: a string list holds strings, the
    integers are those of 32 bits, the reals of [weights] are those of single
    precision, kept as IEEE-754 descriptions.  Reading a sub-message that was
    never written gives the empty message. *)
Record OperationParameter : Type := mkOperationParameter {
  mapStr : gmap string string;
  mapBool : gmap string bool;
  mapInt : gmap string Z;
  mapDouble : gmap string spec_float;
  mapStrList : gmap string (list string)
}.

Record Operation : Type := mkOperation {
  operationParam : OperationParameter;
  size : list Z;
  weights : list spec_float
}.

#[warnings="-register-all"]
Inductive DatasetGraph : Type := mkDatasetGraph {
  children : list DatasetGraph;
  parameter : OperationParameter;
  operations : list Operation;
  sampler : Operation
}.

Definition empty_parameter : OperationParameter :=
  mkOperationParameter ∅ ∅ ∅ ∅ ∅.
Definition empty_operation : Operation :=
  mkOperation empty_parameter [] [].
Definition empty_graph : DatasetGraph :=
  mkDatasetGraph [] empty_parameter [] empty_operation.

(** ** What the message library accepts *)

(** Modelled from the spec: the schema is that of a message library, whose
    typed fields check what is written to them.  The checks below do not
    differ between the implementations of the message library: a string field
    takes a [str] (one that has a UTF-8 encoding, as all strings of the model
    have) and raises [TypeError] for anything else; a 32-bit integer
    field raises [ValueError] for an integer out of its range; [float(n)]
    raises [OverflowError] for an integer too large for a double. *)
Definition to_string (v : value) : result string :=
  match v with
  | VStr s => Ok s
  | _ => Err TypeError
  end.

Definition in_int32 (z : Z) : bool :=
  (-2147483648 <=? z)%Z && (z <=? 2147483647)%Z.

Definition out_of_range_message (z : Z) : string :=
  String.append "Value out of range: " (pretty z).

Definition check_int32 (z : Z) : result Z :=
  if in_int32 z then Ok z else Err (ValueError (out_of_range_message z)).

Definition float_of_int (z : Z) : result spec_float :=
  match binary_normalize 53 1024 z 0 false with
  | S754_infinity _ => Err OverflowError
  | f => Ok f
  end.

(** Modelled from the spec: the points on which the implementations of the
    message library differ are parameters of the model: whether a [bool]
    written to a 32-bit integer field, or to a single-precision field, is
    taken as 1 or 0 or rejected with [TypeError], and how a double is brought
    to single precision by [float32] (the implementations agree on the
    doubles that round to a finite single and differ just beyond the largest
    one). *)
Class SchemaLibrary : Type := {
  bool_as_int32 : bool;
  bool_as_float : bool;
  float32 : spec_float → spec_float
}.

(** Rounding to the nearest single-precision number, ties to even: the
    conversion all implementations make of a double within the range of the
    singles. *)
Definition round_to_single (f : spec_float) : spec_float :=
  match f with
  | S754_finite s m e => binary_normalize 24 128 (cond_Zopp s (Zpos m)) e s
  | _ => f
  end.

(** A library that takes a boolean as 1 or 0, and one that takes no boolean
    for a number. *)
Definition converting_library : SchemaLibrary :=
  {| bool_as_int32 := true; bool_as_float := true;
     float32 := round_to_single |}.
Definition strict_library : SchemaLibrary :=
  {| bool_as_int32 := false; bool_as_float := false;
     float32 := round_to_single |}.

Section encoder.

Context `{library : SchemaLibrary}.

(** Field updates. *)
Definition set_mapStr (key s : string) (m : OperationParameter) :=
  mkOperationParameter (<[key := s]> (mapStr m)) (mapBool m) (mapInt m)
    (mapDouble m) (mapStrList m).
Definition set_mapBool (key : string) (b : bool) (m : OperationParameter) :=
  mkOperationParameter (mapStr m) (<[key := b]> (mapBool m)) (mapInt m)
    (mapDouble m) (mapStrList m).
(** [message.mapInt[key] = z]: the map holds 32-bit integers. *)
Definition insert_mapInt (key : string) (z : Z) (m : OperationParameter) :=
  mkOperationParameter (mapStr m) (mapBool m) (<[key := z]> (mapInt m))
    (mapDouble m) (mapStrList m).
Definition set_mapInt (key : string) (z : Z) (m : OperationParameter)
  : result OperationParameter :=
  z ← check_int32 z;
  Ok (insert_mapInt key z m).
Definition set_mapDouble (key : string) (f : spec_float)
    (m : OperationParameter) :=
  mkOperationParameter (mapStr m) (mapBool m) (mapInt m)
    (<[key := f]> (mapDouble m)) (mapStrList m).
(** [message.mapStrList[key].strValue.extend(l)]: the entry is created when
    the key is read for the first time; every element must be a string. *)
Definition append_mapStrList (key : string) (strs : list string)
    (m : OperationParameter) :=
  mkOperationParameter (mapStr m) (mapBool m) (mapInt m) (mapDouble m)
    (<[key := default [] (mapStrList m !! key) ++ strs]> (mapStrList m)).
Definition extend_mapStrList (key : string) (l : list value)
    (m : OperationParameter) : result OperationParameter :=
  strs ← check_all to_string l;
  Ok (append_mapStrList key strs m).

(** An element written to the repeated 32-bit integer field [size]. *)
Definition to_int32 (v : value) : result Z :=
  match v with
  | VInt z => check_int32 z
  | VBool b => if bool_as_int32 then Ok (Z.b2z b) else Err TypeError
  | _ => Err TypeError
  end.

(** An element written to the repeated single-precision field [weights]:
    a number, brought to single precision. *)
Definition to_float (v : value) : result spec_float :=
  match v with
  | VFloat f => Ok (float32 f)
  | VInt z => f ← float_of_int z; Ok (float32 f)
  | VBool b =>
      if bool_as_float then f ← float_of_int (Z.b2z b); Ok (float32 f)
      else Err TypeError
  | _ => Err TypeError
  end.

(** [message.size.extend(l)] and [message.weights.extend(l)]. *)
Definition extend_size (l : list value) (o : Operation) : result Operation :=
  zs ← check_all to_int32 l;
  Ok (mkOperation (operationParam o) (size o ++ zs) (weights o)).
Definition extend_weights (l : list value) (o : Operation)
  : result Operation :=
  fs ← check_all to_float l;
  Ok (mkOperation (operationParam o) (size o) (weights o ++ fs)).

Definition with_operationParam (p : OperationParameter) (o : Operation) :=
  mkOperation p (size o) (weights o).

Definition add_child (c : DatasetGraph) (g : DatasetGraph) :=
  mkDatasetGraph (children g ++ [c]) (parameter g) (operations g) (sampler g).
Definition with_parameter (p : OperationParameter) (g : DatasetGraph) :=
  mkDatasetGraph (children g) p (operations g) (sampler g).
Definition add_operation (o : Operation) (g : DatasetGraph) :=
  mkDatasetGraph (children g) (parameter g) (operations g ++ [o]) (sampler g).
Definition with_sampler (o : Operation) (g : DatasetGraph) :=
  mkDatasetGraph (children g) (parameter g) (operations g) o.

(** ** The methods of [DatasetGraph] *)

Definition unsupported_message (key : string) : string :=
  String.append "Parameter "
    (String.append key " is not supported in event package.").

(** The value of an [int] instance as an integer ([True] is 1). *)
Definition int_value (v : value) : Z :=
  match v with
  | VBool b => Z.b2z b
  | VInt z => z
  | _ => 0%Z
  end.

(** [lambda x: "" if x is None else x] *)
Definition replace_None (x : value) : value :=
  if is_None x then VStr "" else x.

(** [_package_parameter(key, value, message)], lines 113-128.  The chain of
    [isinstance] tests is kept in the order of the source. *)
Definition _package_parameter (key : string) (value : value)
    (message : OperationParameter) : result OperationParameter :=
  if isinstance_str value then
    match value with
    | VStr s => Ok (set_mapStr key s message)
    | _ => Ok message
    end
  else if isinstance_bool value then
    match value with
    | VBool b => Ok (set_mapBool key b message)
    | _ => Ok message
    end
  else if isinstance_int value then
    set_mapInt key (int_value value) message
  else if isinstance_float value then
    match value with
    | VFloat f => Ok (set_mapDouble key f message)
    | _ => Ok message
    end
  else if isinstance_list value && negb (String.eqb key "operations") then
    match value with
    | VList l =>
        if truthy value then
          extend_mapStrList key (map replace_None l) message
        else Ok message
    | _ => Ok message
    end
  else if is_None value then
    Ok (set_mapStr key "None" message)
  else
    Err (ValueError (unsupported_message key)).

(** One turn of the loop of [_package_enhancement_operation], lines 95-101. *)
Definition enhancement_item (kv : string * value) (message : Operation)
  : result Operation :=
  let '(key, value) := kv in
  if isinstance_list value then
    match value with
    | VList l =>
        if forallb isinstance_int l then extend_size l message
        else extend_weights l message
    | _ => Ok message
    end
  else
    p ← _package_parameter key value (operationParam message);
    Ok (with_operationParam p message).

(** [_package_enhancement_operation(operation, message)], lines 94-101. *)
Definition _package_enhancement_operation (operation : value)
    (message : Operation) : result Operation :=
  d ← items operation;
  for_each enhancement_item d message.

(** Lines 73-77: [message.operations.add()] makes an empty operation, which
    the call fills. *)
Definition package_operator (operator : value) (message : DatasetGraph)
  : result DatasetGraph :=
  o ← _package_enhancement_operation operator empty_operation;
  Ok (add_operation o message).

(** One turn of the loop of [_package_current_dataset], lines 72-84. *)
Definition current_dataset_item (kv : string * value) (message : DatasetGraph)
  : result DatasetGraph :=
  let '(key, value) := kv in
  if truthy value && String.eqb key "operations" then
    operators ← iter value;
    for_each package_operator operators message
  else if truthy value && String.eqb key "sampler" then
    s ← _package_enhancement_operation value (sampler message);
    Ok (with_sampler s message)
  else
    p ← _package_parameter key value (parameter message);
    Ok (with_parameter p message).

(** [_package_current_dataset(operation, message)], lines 71-84. *)
Definition _package_current_dataset (operation : value)
    (message : DatasetGraph) : result DatasetGraph :=
  d ← items operation;
  for_each current_dataset_item d message.

(** What a call of [_package_children] gives back: the list it was given, as
    the call leaves it ([child.pop] changes the child dicts in place), and
    the message. *)
Abbreviation children_call :=
  (DatasetGraph → result (value * DatasetGraph)).

(** The body of the loop of [_package_children], lines 55-61, for one child.
    [popped] is what looking up ["children"] in the child found: the
    grandson and the recursive call on it.  The result is the child as the
    body leaves it and the message with the child's message added. *)
Definition package_child (popped : option (value * children_call))
    (child : value) (message : DatasetGraph)
  : result (value * DatasetGraph) :=
  if truthy child then
    match child with
    | VDict d =>
        match popped with
        | None => Err (KeyError "children")
        | Some (grandson, package_grandson) =>
            let child := VDict (dict_delete "children" d) in
            child_graph_message ←
              (if truthy grandson then snd <$> package_grandson empty_graph
               else Ok empty_graph);
            child_graph_message ←
              _package_current_dataset child child_graph_message;
            Ok (child, add_child child_graph_message message)
        end
    | VList _ => Err TypeError
    | _ => Err AttributeError
    end
  else Ok (child, message).

(** The loop over a list whose elements are not dicts (the characters of a
    string, the keys of a dict): no recursive call can happen. *)
Definition package_plain_children (l : list value) (message : DatasetGraph)
  : result DatasetGraph :=
  for_each (λ child message, snd <$> package_child None child message)
    l message.

(** [_package_children(children, message)], lines 54-61.  The recursion
    follows the structure of the value: the recursive call is made on the
    value found under ["children"] in an element of the list, so the
    function is total; the recursion limit of the interpreter is not
    modelled. *)
Fixpoint _package_children (children : value) : children_call :=
  λ message,
  match children with
  | VList l =>
      '(l, message) ←
        (fix loop (l : list value) (message : DatasetGraph)
           : result (list value * DatasetGraph) :=
           match l with
           | [] => Ok ([], message)
           | child :: rest =>
               '(child, message) ←
                 package_child
                   match child with
                   | VDict d =>
                       (fix find (d : dict) : option (value * children_call) :=
                          match d with
                          | [] => None
                          | (k, v) :: d' =>
                              if String.eqb k "children"
                              then Some (v, _package_children v)
                              else find d'
                          end) d
                   | _ => None
                   end
                   child message;
               '(rest, message) ← loop rest message;
               Ok (child :: rest, message)
           end) l message;
      Ok (VList l, message)
  | VStr _ | VDict _ =>
      l ← iter children;
      message ← package_plain_children l message;
      Ok (children, message)
  | _ => Err TypeError
  end.

(** Lines 38-44 of [package_dataset_graph], on the dict [json.loads]
    returned.  The result holds the final state of the local variables
    [dataset_dict] and [children] ([None] when never bound) beside the
    message. *)
Definition package_dataset_graph_body (dataset_dict : dict)
  : result (dict * option value * DatasetGraph) :=
  let dataset_graph_proto := empty_graph in
  if dict_contains "children" dataset_dict then
    '(children, dataset_dict) ← dict_pop "children" dataset_dict;
    '(children, dataset_graph_proto) ←
      (if truthy children then _package_children children dataset_graph_proto
       else Ok (children, dataset_graph_proto));
    dataset_graph_proto ←
      _package_current_dataset (VDict dataset_dict) dataset_graph_proto;
    Ok (dataset_dict, Some children, dataset_graph_proto)
  else Ok (dataset_dict, None, dataset_graph_proto).

(** [package_dataset_graph]: the message is what the caller gets. *)
Definition package_dataset_graph (dataset_dict : dict)
  : result DatasetGraph :=
  snd <$> package_dataset_graph_body dataset_dict.

(** ** The recursion of [_package_children], as the source writes it *)

(** [child.pop("children")] as the loop body needs it: the grandson, and the
    recursive call that line 59 makes on it. *)
Definition pop_children (child : value) : option (value * children_call) :=
  match child with
  | VDict d =>
      match dict_get "children" d with
      | Some grandson => Some (grandson, _package_children grandson)
      | None => None
      end
  | _ => None
  end.

(** [for child in children: ...] over the elements of a list. *)
Fixpoint children_loop (l : list value) (message : DatasetGraph)
  : result (list value * DatasetGraph) :=
  match l with
  | [] => Ok ([], message)
  | child :: rest =>
      '(child, message) ← package_child (pop_children child) child message;
      '(rest, message) ← children_loop rest message;
      Ok (child :: rest, message)
  end.

(** The message [_package_children] builds for one child, lines 56-61: the
    grandsons first, then the child's own parameters. *)
Definition encode_child (child : value) : result DatasetGraph :=
  match child with
  | VDict d =>
      '(grandson, d) ← dict_pop "children" d;
      child_graph_message ←
        (if truthy grandson
         then snd <$> _package_children grandson empty_graph
         else Ok empty_graph);
      _package_current_dataset (VDict d) child_graph_message
  | VList _ => Err TypeError
  | _ => Err AttributeError
  end.

(** The child as line 57 leaves it. *)
Definition child_after (child : value) : value :=
  match child with
  | VDict d => VDict (dict_delete "children" d)
  | _ => child
  end.

(** The list of children as a successful walk leaves it. *)
Definition children_after (children : value) : value :=
  match children with
  | VList l => VList (map child_after l)
  | _ => children
  end.

(** The keys that have an entry in one of the five maps of a block. *)
Definition parameter_keys (p : OperationParameter) : gset string :=
  dom (mapStr p) ∪ dom (mapBool p) ∪ dom (mapInt p) ∪ dom (mapDouble p)
    ∪ dom (mapStrList p).

(** [key] has no entry in any of the five maps of the block. *)
Definition no_entry (key : string) (p : OperationParameter) : Prop :=
  mapStr p !! key = None ∧ mapBool p !! key = None ∧
  mapInt p !! key = None ∧ mapDouble p !! key = None ∧
  mapStrList p !! key = None.

(** The values [_package_parameter] has no rule for. *)
Definition unsupported (key : string) (v : value) : bool :=
  match v with
  | VDict _ => true
  | VList _ => String.eqb key "operations"
  | _ => false
  end.

(** The elements of a ["children"] value that pass the test [if child:] of
    line 55, in the order of the list. *)
Definition truthy_children (children : value) : list value :=
  match children with
  | VList l => filter (λ child, truthy child = true) l
  | _ => []
  end.

(** The message with its [children] replaced. *)
Definition set_children (nodes : list DatasetGraph) (g : DatasetGraph) :=
  mkDatasetGraph nodes (parameter g) (operations g) (sampler g).

(** The walk that lines 41-42 and 58-59 make: none for a falsy value. *)
Definition walk_children (children : value) (message : DatasetGraph)
  : result (value * DatasetGraph) :=
  if truthy children then _package_children children message
  else Ok (children, message).

(** The elements of the list-valued entries of an operation, in the order
    of the entries: those of the lists that pass the all-[int] test of line
    96 when [all_int] is [true], those of the other lists when it is
    [false]. *)
Definition list_elements (all_int : bool) (d : dict) : list value :=
  flat_map
    (λ kv, match snd kv with
           | VList l =>
               if Bool.eqb (forallb isinstance_int l) all_int then l else []
           | _ => []
           end) d.

(** The values lines 73-77 hand to [_package_enhancement_operation] for a
    node: the elements of what a truthy ["operations"] entry holds. *)
Definition operators_of (d : dict) : list value :=
  flat_map
    (λ kv, if truthy (snd kv) && String.eqb (fst kv) "operations"
           then match iter (snd kv) with Ok l => l | Err _ => [] end
           else []) d.

(** [operator] is encoded into the operation message [o]. *)
Definition encoded_operation (operator : value) (o : Operation) : Prop :=
  _package_enhancement_operation operator empty_operation = Ok o.

(** ** The entries of the input *)

(** [(key, v)] is an entry of a map of the input: of the map itself, or of
    a map nested in it at any depth (a child, an operation, a sampler). *)
Inductive entry_of (key : string) (v : value) : value → Prop :=
| entry_here (d : dict) :
    (key, v) ∈ d → entry_of key v (VDict d)
| entry_in_dict (k : string) (w : value) (d : dict) :
    (k, w) ∈ d → entry_of key v w → entry_of key v (VDict d)
| entry_in_list (l : list value) (w : value) :
    w ∈ l → entry_of key v w → entry_of key v (VList l).

(** The elements a string list takes: strings, and nulls (written as the
    empty string). *)
Definition is_str_or_None (x : value) : bool :=
  isinstance_str x || is_None x.

Definition string_of (x : value) : string :=
  match x with
  | VStr s => s
  | _ => ""
  end.

(** The elements of a list are booleans and integers. *)
Definition booleans_and_integers (l : list value) : Prop :=
  Forall (λ v, (∃ b, v = VBool b) ∨ (∃ z, v = VInt z)) l.

(** ** Descriptions used by the further properties *)

(** The entries of a node that reach generic dispatch at line 84: all but
    a truthy ["operations"] and a truthy ["sampler"]. *)
Definition is_generic (kv : string * value) : bool :=
  negb (truthy (snd kv)
        && (String.eqb (fst kv) "operations"
            || String.eqb (fst kv) "sampler")).

Definition generic_items (d : dict) : dict := List.filter is_generic d.

(** What a successful generic dispatch of [value] under [key] does to a
    block, whatever the block holds. *)
Definition parameter_update (key : string) (value : value)
  : result (OperationParameter → OperationParameter) :=
  match value with
  | VStr s => Ok (set_mapStr key s)
  | VNone => Ok (set_mapStr key "None")
  | VBool b => Ok (set_mapBool key b)
  | VInt z => z ← check_int32 z; Ok (insert_mapInt key z)
  | VFloat f => Ok (set_mapDouble key f)
  | VList l =>
      if String.eqb key "operations"
      then Err (ValueError (unsupported_message key))
      else match l with
           | [] => Ok id
           | _ :: _ =>
               strs ← check_all to_string (map replace_None l);
               Ok (append_mapStrList key strs)
           end
  | VDict _ => Err (ValueError (unsupported_message key))
  end.

(** The updates of generic dispatch. *)
Inductive is_update (key : string)
  : (OperationParameter → OperationParameter) → Prop :=
| update_str s : is_update key (set_mapStr key s)
| update_bool b : is_update key (set_mapBool key b)
| update_int z : is_update key (insert_mapInt key z)
| update_double f : is_update key (set_mapDouble key f)
| update_list strs : strs ≠ [] → is_update key (append_mapStrList key strs)
| update_none : is_update key id.

(** Generic dispatch of a sequence of entries, one call of
    [_package_parameter] after the other. *)
Definition package_parameters (l : dict) (p : OperationParameter)
  : result OperationParameter :=
  for_each (λ kv, _package_parameter (fst kv) (snd kv)) l p.

(** What can be read back under [key] from the block [new] once [value] was
    dispatched under that key, the block being [old] before. *)
Definition recorded (key : string) (value : value)
    (old new : OperationParameter) : Prop :=
  match value with
  | VStr s => mapStr new !! key = Some s
  | VNone => mapStr new !! key = Some "None"
  | VBool b => mapBool new !! key = Some b
  | VInt z => mapInt new !! key = Some z
  | VFloat f => mapDouble new !! key = Some f
  | VList [] => mapStrList new !! key = mapStrList old !! key
  | VList l =>
      forallb is_str_or_None l = true ∧
      mapStrList new !! key =
        Some (default [] (mapStrList old !! key) ++ map string_of l)
  | VDict _ => False
  end.

(** The number of maps of the block in which [key] has an entry. *)
Definition has_entry {A : Type} (o : option A) : nat :=
  match o with Some _ => 1 | None => 0 end.

Definition entry_count (key : string) (p : OperationParameter) : nat :=
  has_entry (mapStr p !! key) + has_entry (mapBool p !! key)
  + has_entry (mapInt p !! key) + has_entry (mapDouble p !! key)
  + has_entry (mapStrList p !! key).

(** The five lookups of two blocks agree at [key]. *)
Definition same_entries (key : string) (p q : OperationParameter) : Prop :=
  mapStr p !! key = mapStr q !! key ∧ mapBool p !! key = mapBool q !! key ∧
  mapInt p !! key = mapInt q !! key ∧
  mapDouble p !! key = mapDouble q !! key ∧
  mapStrList p !! key = mapStrList q !! key.

(** The entries of an operation that reach generic dispatch at line 101:
    those whose value is not a list. *)
Definition scalar_items (od : dict) : dict :=
  List.filter (λ kv, negb (isinstance_list (snd kv))) od.

(** The operations lines 73-77 append for a list of operators: each one
    encoded from the empty operation, in order. *)
Fixpoint encode_operators (l : list value) : result (list Operation) :=
  match l with
  | [] => Ok []
  | operator :: l' =>
      o ← _package_enhancement_operation operator empty_operation;
      os ← encode_operators l';
      Ok (o :: os)
  end.

(** ** The shape of the inputs the encoder can encode *)

(** What generic dispatch asks of a value: it is no map; an integer is one
    of 32 bits; a list is not under the key "operations" and holds strings
    and nulls. *)
Definition parameter_ok (key : string) (v : value) : bool :=
  match v with
  | VInt z => in_int32 z
  | VList l => negb (String.eqb key "operations") && forallb is_str_or_None l
  | VDict _ => false
  | _ => true
  end.

(** What the fields [size] and [weights] ask of an element. *)
Definition size_ok (v : value) : bool :=
  match v with
  | VInt z => in_int32 z
  | VBool _ => bool_as_int32
  | _ => false
  end.

Definition weight_ok (v : value) : bool :=
  match v with
  | VFloat _ => true
  | VInt z =>
      match float_of_int z with Ok _ => true | Err _ => false end
  | VBool _ => bool_as_float
  | _ => false
  end.

(** What lines 94-101 ask of an operation or sampler value: it is a dict;
    a list in it holds elements its field takes, any other value is one
    generic dispatch takes. *)
Definition operation_item_ok (kv : string * value) : bool :=
  match snd kv with
  | VList l =>
      if forallb isinstance_int l then forallb size_ok l
      else forallb weight_ok l
  | v => parameter_ok (fst kv) v
  end.

Definition operation_ok (v : value) : bool :=
  match v with
  | VDict od => forallb operation_item_ok od
  | _ => false
  end.

(** What lines 72-84 ask of an entry of a node. *)
Definition item_ok (kv : string * value) : bool :=
  if truthy (snd kv) && String.eqb (fst kv) "operations" then
    match snd kv with
    | VList l => forallb operation_ok l
    | _ => false
    end
  else if truthy (snd kv) && String.eqb (fst kv) "sampler" then
    operation_ok (snd kv)
  else parameter_ok (fst kv) (snd kv).

Definition node_ok (d : dict) : bool := forallb item_ok d.

(** What [_package_children] asks of the value it walks: a list whose
    truthy elements are dicts with a ["children"] entry that is falsy or of
    this shape again, the other entries being those of a node of the shape
    above; or a string or dict that gives the loop nothing truthy to work
    on. *)
Fixpoint children_ok (cs : value) : bool :=
  match cs with
  | VList l =>
      forallb
        (λ child,
           negb (truthy child) ||
           match child with
           | VDict d =>
               (fix find (d' : dict) : bool :=
                  match d' with
                  | [] => false
                  | (k, v) :: d'' =>
                      if String.eqb k "children"
                      then negb (truthy v) || children_ok v
                      else find d''
                  end) d
               && node_ok (dict_delete "children" d)
           | _ => false
           end) l
  | VStr s => String.eqb s ""
  | VDict d => forallb (λ kv, String.eqb (fst kv) "") d
  | _ => false
  end.

Definition child_ok (child : value) : bool :=
  negb (truthy child) ||
  match child with
  | VDict d =>
      match dict_get "children" d with
      | Some grandson => negb (truthy grandson) || children_ok grandson
      | None => false
      end
      && node_ok (dict_delete "children" d)
  | _ => false
  end.

(** What [package_dataset_graph] asks of the dict it is given. *)
Definition accepted (dataset_dict : dict) : bool :=
  match dict_get "children" dataset_dict with
  | Some cs =>
      (negb (truthy cs) || children_ok cs)
      && node_ok (dict_delete "children" dataset_dict)
  | None => true
  end.

(** Two runs end alike: both return, or both raise the same exception. *)
Definition same_outcome {A B : Type} (r : result A) (r' : result B) : Prop :=
  match r, r' with
  | Ok _, Ok _ => True
  | Err e, Err e' => e = e'
  | _, _ => False
  end.

(** A string list as generic dispatch builds it: not empty (its elements
    are strings by the type of the field: a null is written as the empty
    string). *)
Definition string_list_ok (l : list string) : Prop := l ≠ [].

(** ** Facts about the exception monad and the loops *)

Lemma bind_Ok {A B : Type} (m : result A) (f : A → result B) (b : B) :
  m ≫= f = Ok b ↔ ∃ a, m = Ok a ∧ f a = Ok b.
Proof.
  destruct m as [a|e]; simpl; split.
  - intros H. exists a. auto.
  - intros (a' & Ha & Hf). congruence.
  - discriminate.
  - intros (a' & Ha & _). discriminate.
Qed.

Lemma bind_Err {A B : Type} (m : result A) (f : A → result B) (e : exception) :
  m ≫= f = Err e ↔ m = Err e ∨ ∃ a, m = Ok a ∧ f a = Err e.
Proof.
  destruct m as [a|e']; simpl; split.
  - intros H. right. exists a. auto.
  - intros [H | (a' & Ha & Hf)]; congruence.
  - intros H. left. congruence.
  - intros [H | (a' & Ha & _)]; congruence.
Qed.

Lemma fmap_Ok {A B : Type} (m : result A) (f : A → B) (b : B) :
  f <$> m = Ok b ↔ ∃ a, m = Ok a ∧ b = f a.
Proof.
  destruct m as [a|e]; simpl; split.
  - intros H. exists a. split; congruence.
  - intros (a' & Ha & ->). congruence.
  - discriminate.
  - intros (a' & Ha & _). discriminate.
Qed.

Lemma fmap_Err {A B : Type} (m : result A) (f : A → B) (e : exception) :
  f <$> m = Err e ↔ m = Err e.
Proof. destruct m; simpl; split; congruence. Qed.

(** Taking a successful bind apart. *)
Ltac inv_ok :=
  repeat match goal with
    | H : Ok _ = Ok _ |- _ => injection H as H; try subst
    | H : Err _ = Ok _ |- _ => discriminate H
    | H : Ok _ = Err _ |- _ => discriminate H
    | H : (_ ≫= _) = Ok _ |- _ =>
        let a := fresh "r" in
        let Ha := fresh "Hr" in
        apply bind_Ok in H; destruct H as (a & Ha & H)
    | H : (_ <$> _) = Ok _ |- _ =>
        let a := fresh "r" in
        let Ha := fresh "Hr" in
        apply fmap_Ok in H; destruct H as (a & Ha & H)
    | H : (let '(_, _) := ?p in _) = _ |- _ => destruct p
    end.

(** A property kept by every turn is kept by the loop. *)
Lemma for_each_invariant {A S : Type} (I : S → Prop) (body : A → S → result S)
    (l : list A) :
  (∀ a s s', a ∈ l → I s → body a s = Ok s' → I s') →
  ∀ s s', I s → for_each body l s = Ok s' → I s'.
Proof.
  induction l as [|a l IH]; intros Hbody s s' Hs Hrun; simpl in Hrun.
  - congruence.
  - inv_ok. eapply IH; [| |exact Hrun].
    + intros a' t t' Hin. apply Hbody. by right.
    + eapply Hbody; [by left|exact Hs|exact Hr].
Qed.

(** The first exception of a loop is the exception of one of its turns. *)
Lemma for_each_Err {A S : Type} (body : A → S → result S) (l : list A)
    (s : S) (e : exception) :
  for_each body l s = Err e → ∃ a t, a ∈ l ∧ body a t = Err e.
Proof.
  revert s. induction l as [|a l IH]; intros s Hrun; simpl in Hrun.
  - discriminate.
  - apply bind_Err in Hrun as [Hrun | (t & _ & Hrun)].
    + exists a, s. split; [by left|done].
    + destruct (IH _ Hrun) as (a' & t' & Hin & Hbody).
      exists a', t'. split; [by right|done].
Qed.

Lemma dict_get_elem_of (key : string) (d : dict) (v : value) :
  dict_get key d = Some v → (key, v) ∈ d.
Proof.
  induction d as [|[k w] d IH]; simpl; [discriminate|].
  destruct (String.eqb_spec k key) as [->|Hne].
  - intros [= ->]. by left.
  - intros H. right. auto.
Qed.

(** ** [_package_children] is the loop of the source *)

Lemma _package_children_VList (l : list value) (message : DatasetGraph) :
  _package_children (VList l) message =
    '(l, message) ← children_loop l message; Ok (VList l, message).
Proof.
  simpl. f_equal. revert message.
  induction l as [|child rest IH]; intros message; [done|].
  simpl.
  replace (pop_children child) with
    (match child with
     | VDict d =>
         (fix find (d : dict) : option (value * children_call) :=
            match d with
            | [] => None
            | (k, v) :: d' =>
                if String.eqb k "children"
                then Some (v, _package_children v)
                else find d'
            end) d
     | _ => None
     end).
  - destruct (package_child _ child message) as [[child' message']|e];
      simpl; [|done].
    by rewrite IH.
  - destruct child as [| | | | |l'|d]; try done.
    unfold pop_children.
    induction d as [|[k v] d IHd]; [done|].
    simpl. destruct (String.eqb k "children"); [done|]. exact IHd.
Qed.

Lemma _package_children_not_list (children : value) (message : DatasetGraph) :
  isinstance_list children = false →
  _package_children children message =
    l ← iter children;
    message ← package_plain_children l message;
    Ok (children, message).
Proof. destruct children; try done. Qed.

(** The body of the loop adds the message [encode_child] builds. *)
Lemma package_child_truthy (child : value) (message : DatasetGraph) :
  truthy child = true →
  package_child (pop_children child) child message =
    child_graph_message ← encode_child child;
    Ok (child_after child, add_child child_graph_message message).
Proof.
  intros Ht. unfold package_child. rewrite Ht.
  destruct child as [| | | | |l|d]; try done.
  unfold pop_children, encode_child, dict_pop, child_after.
  destruct (dict_get "children" d) as [grandson|]; [|done].
  simpl.
  destruct (if truthy grandson then _ else _) as [m|e]; [|done].
  simpl. by destruct (_package_current_dataset _ m).
Qed.

Lemma package_child_falsy (popped : option (value * children_call))
    (child : value) (message : DatasetGraph) :
  truthy child = false →
  package_child popped child message = Ok (child, message).
Proof. intros Ht. unfold package_child. by rewrite Ht. Qed.

(** ** Generic dispatch: [_package_parameter] *)

Lemma _package_parameter_VStr key s message :
  _package_parameter key (VStr s) message = Ok (set_mapStr key s message).
Proof. reflexivity. Qed.

Lemma _package_parameter_VBool key b message :
  _package_parameter key (VBool b) message = Ok (set_mapBool key b message).
Proof. reflexivity. Qed.

Lemma _package_parameter_VInt key z message :
  _package_parameter key (VInt z) message = set_mapInt key z message.
Proof. reflexivity. Qed.

Lemma _package_parameter_VFloat key f message :
  _package_parameter key (VFloat f) message = Ok (set_mapDouble key f message).
Proof. reflexivity. Qed.

Lemma _package_parameter_VNone key message :
  _package_parameter key VNone message = Ok (set_mapStr key "None" message).
Proof. reflexivity. Qed.

Lemma _package_parameter_VDict key d message :
  _package_parameter key (VDict d) message =
    Err (ValueError (unsupported_message key)).
Proof. reflexivity. Qed.

Lemma _package_parameter_VList key l message :
  _package_parameter key (VList l) message =
    if String.eqb key "operations"
    then Err (ValueError (unsupported_message key))
    else match l with
         | [] => Ok message
         | _ :: _ => extend_mapStrList key (map replace_None l) message
         end.
Proof.
  unfold _package_parameter. simpl.
  destruct (String.eqb key "operations"); simpl; [done|].
  by destruct l.
Qed.

(** Generic dispatch checks the value and then updates the block: whether
    it succeeds, and with which exception it fails, does not depend on the
    block. *)
Lemma _package_parameter_update key v message :
  _package_parameter key v message =
    update ← parameter_update key v; Ok (update message).
Proof.
  destruct v as [|b|z|f|s|l|d]; try reflexivity.
  - rewrite _package_parameter_VInt. unfold set_mapInt. simpl.
    by destruct (check_int32 z).
  - rewrite _package_parameter_VList. simpl.
    destruct (String.eqb key "operations"); [done|].
    destruct l as [|x l]; [done|].
    unfold extend_mapStrList.
    by destruct (check_all to_string (map replace_None (x :: l))).
Qed.

Lemma check_all_cons_Ok {A B : Type} (check : A → result B) a l bs :
  check_all check (a :: l) = Ok bs →
  ∃ b bs', check a = Ok b ∧ check_all check l = Ok bs' ∧ bs = b :: bs'.
Proof.
  simpl. intros Hrun.
  apply bind_Ok in Hrun as (b & Hb & Hrun).
  apply bind_Ok in Hrun as (bs' & Hbs & Hrun).
  injection Hrun as <-. eauto.
Qed.

Lemma parameter_update_is_update key v update :
  parameter_update key v = Ok update → is_update key update.
Proof.
  destruct v as [|b|z|f|s|l|d]; simpl.
  - intros [= <-]. apply update_str.
  - intros [= <-]. apply update_bool.
  - intros Hrun. apply bind_Ok in Hrun as (z' & _ & Hrun).
    injection Hrun as <-. apply update_int.
  - intros [= <-]. apply update_double.
  - intros [= <-]. apply update_str.
  - destruct (String.eqb key "operations"); [discriminate|].
    destruct l as [|x l]; [intros [= <-]; apply update_none|].
    intros Hrun. apply bind_Ok in Hrun as (strs & Hstrs & Hrun).
    injection Hrun as <-. apply update_list.
    apply check_all_cons_Ok in Hstrs as (b & bs' & _ & _ & ->). done.
  - discriminate.
Qed.

Lemma _package_parameter_Ok_update key v p p' :
  _package_parameter key v p = Ok p' →
  ∃ update,
    parameter_update key v = Ok update ∧ is_update key update ∧
    p' = update p.
Proof.
  rewrite _package_parameter_update. intros Hrun.
  apply bind_Ok in Hrun as (update & Hu & Hrun). injection Hrun as <-.
  exists update. split; [done|]. split; [|done].
  by eapply parameter_update_is_update.
Qed.

(** The message of the schema library is not the message of line 128, and
    the message of line 128 tells the key. *)
Lemma string_append_inj_l (s t1 t2 : string) :
  String.append s t1 = String.append s t2 → t1 = t2.
Proof. induction s as [|c s IH]; simpl; [done|]. intros [= H]. auto. Qed.

Lemma string_append_length (s t : string) :
  String.length (String.append s t) = String.length s + String.length t.
Proof. induction s as [|c s IH]; simpl; [done|]. by rewrite IH. Qed.

Lemma string_append_inj_r (s1 s2 t : string) :
  String.append s1 t = String.append s2 t → s1 = s2.
Proof.
  revert s2. induction s1 as [|c s1 IH]; intros [|c2 s2]; simpl; intros H.
  - done.
  - apply (f_equal String.length) in H.
    rewrite !string_append_length in H. simpl in H. lia.
  - apply (f_equal String.length) in H.
    rewrite !string_append_length in H. simpl in H. lia.
  - injection H as -> H. f_equal. by apply IH.
Qed.

Lemma unsupported_message_inj key key' :
  unsupported_message key = unsupported_message key' → key = key'.
Proof.
  unfold unsupported_message. intros H.
  apply string_append_inj_l in H. by apply string_append_inj_r in H.
Qed.

Lemma out_of_range_not_unsupported z key :
  out_of_range_message z ≠ unsupported_message key.
Proof.
  unfold out_of_range_message, unsupported_message. simpl. discriminate.
Qed.

(** Generic dispatch raises the [ValueError] of line 128 for the values it
    has no rule for, and for no other. *)
Lemma _package_parameter_unsupported key v message :
  unsupported key v = true →
  _package_parameter key v message =
    Err (ValueError (unsupported_message key)).
Proof.
  destruct v as [|b|z|f|s|l|d]; try discriminate; simpl; intros Hu.
  - rewrite _package_parameter_VList. by rewrite Hu.
  - reflexivity.
Qed.

Lemma check_all_to_string_Err l e :
  check_all to_string l = Err e → e = TypeError.
Proof.
  induction l as [|x l IH]; simpl; [discriminate|].
  intros Hrun. apply bind_Err in Hrun as [Hx | (s & _ & Hrun)].
  - destruct x; simpl in Hx; congruence.
  - apply bind_Err in Hrun as [Hl | (bs & _ & Hrun)]; [auto|discriminate].
Qed.

Lemma _package_parameter_Err_unsupported k v message key :
  _package_parameter k v message =
    Err (ValueError (unsupported_message key)) →
  k = key ∧ unsupported k v = true.
Proof.
  destruct v as [|b|z|f|s|l|d]; simpl; try discriminate.
  - rewrite _package_parameter_VInt. unfold set_mapInt, check_int32.
    destruct (in_int32 z); simpl; [discriminate|].
    intros H. exfalso. apply (out_of_range_not_unsupported z key).
    congruence.
  - rewrite _package_parameter_VList.
    destruct (String.eqb k "operations") eqn:Hk.
    + intros H. split; [|done]. apply unsupported_message_inj. congruence.
    + destruct l as [|x l]; [discriminate|].
      unfold extend_mapStrList. intros Hrun.
      apply bind_Err in Hrun as [Hrun | (strs & _ & Hrun)]; [|discriminate].
      apply check_all_to_string_Err in Hrun. discriminate.
  - rewrite _package_parameter_VDict.
    intros H. split; [|done]. apply unsupported_message_inj. congruence.
Qed.

Lemma _package_parameter_Ok_supported key v message message' :
  _package_parameter key v message = Ok message' →
  unsupported key v = false.
Proof.
  intros Hrun. destruct (unsupported key v) eqn:Hu; [|done].
  rewrite _package_parameter_unsupported in Hrun by done. discriminate.
Qed.

(** Generic dispatch writes under its own key only. *)
Lemma is_update_keys key update p :
  is_update key update →
  parameter_keys (update p) ⊆ parameter_keys p ∪ {[key]}.
Proof.
  unfold parameter_keys.
  destruct 1; simpl; rewrite ?dom_insert; set_solver.
Qed.

Lemma _package_parameter_keys key v message message' :
  _package_parameter key v message = Ok message' →
  parameter_keys message' ⊆ parameter_keys message ∪ {[key]}.
Proof.
  intros Hrun.
  apply _package_parameter_Ok_update in Hrun as (update & _ & Hu & ->).
  by apply is_update_keys.
Qed.

(** C4: for every key whose value is a boolean, generic dispatch stores the
    value in the Boolean map under that key and leaves the Integer map (and
    the three other maps) as they were, although the boolean passes the
    [int] test that comes next in the chain. *)
Theorem boolean_before_integer (key : string) (b : bool)
    (message : OperationParameter) :
  isinstance_int (VBool b) = true ∧
  ∃ message',
    _package_parameter key (VBool b) message = Ok message' ∧
    mapBool message' !! key = Some b ∧
    (∀ k, k ≠ key → mapBool message' !! k = mapBool message !! k) ∧
    mapInt message' = mapInt message ∧
    mapStr message' = mapStr message ∧
    mapDouble message' = mapDouble message ∧
    mapStrList message' = mapStrList message.
Proof.
  split; [done|].
  exists (set_mapBool key b message). simpl.
  split_and!; try done.
  - apply lookup_insert_eq.
  - intros k Hk. by apply lookup_insert_ne.
Qed.

Lemma check_all_to_string_Ok l :
  forallb is_str_or_None l = true →
  check_all to_string (map replace_None l) = Ok (map string_of l).
Proof.
  induction l as [|x l IH]; simpl; [done|].
  intros Hl. apply andb_true_iff in Hl as [Hx Hl].
  rewrite (IH Hl). by destruct x.
Qed.

Lemma check_all_to_string_TypeError l :
  forallb is_str_or_None l = false →
  check_all to_string (map replace_None l) = Err TypeError.
Proof.
  induction l as [|x l IH]; simpl; [discriminate|].
  intros Hl. apply andb_false_iff in Hl as [Hx | Hl].
  - by destruct x.
  - rewrite (IH Hl). by destruct x.
Qed.

(** C6, as the code has it: for every key other than "operations", generic
    dispatch of a non-empty list whose elements are strings and nulls appends
    the strings, each null replaced with the empty string, to the StringList
    entry of that key (the entry is that sequence when the key had none), and
    no other entry and no other map changes; a non-empty list with an
    element of any other type raises [TypeError], the elements are not
    converted to strings; an empty list leaves the whole block unchanged. *)
Theorem generic_list_dispatch (key : string) (l : list value)
    (message : OperationParameter) :
  key ≠ "operations" →
  (l = [] → _package_parameter key (VList l) message = Ok message) ∧
  (l ≠ [] → forallb is_str_or_None l = true →
     ∃ message',
       _package_parameter key (VList l) message = Ok message' ∧
       mapStrList message' !! key =
         Some (default [] (mapStrList message !! key) ++ map string_of l) ∧
       (mapStrList message !! key = None →
          mapStrList message' !! key = Some (map string_of l)) ∧
       (∀ k, k ≠ key → mapStrList message' !! k = mapStrList message !! k) ∧
       mapStr message' = mapStr message ∧
       mapBool message' = mapBool message ∧
       mapInt message' = mapInt message ∧
       mapDouble message' = mapDouble message) ∧
  (l ≠ [] → forallb is_str_or_None l = false →
     _package_parameter key (VList l) message = Err TypeError).
Proof.
  intros Hkey. rewrite _package_parameter_VList.
  apply String.eqb_neq in Hkey. rewrite Hkey.
  split_and!.
  - by intros ->.
  - intros Hl Hstr. destruct l as [|x l]; [done|].
    unfold extend_mapStrList. rewrite check_all_to_string_Ok by done.
    eexists. split; [reflexivity|]. simpl. split_and!; try done.
    + apply lookup_insert_eq.
    + intros Hnone. rewrite lookup_insert_eq, Hnone. done.
    + intros k Hk. by apply lookup_insert_ne.
  - intros Hl Hstr. destruct l as [|x l]; [done|].
    unfold extend_mapStrList.
    by rewrite check_all_to_string_TypeError.
Qed.
(** ** Operations and samplers: [_package_enhancement_operation] *)

Lemma enhancement_item_VList key l message :
  enhancement_item (key, VList l) message =
    if forallb isinstance_int l then extend_size l message
    else extend_weights l message.
Proof. reflexivity. Qed.

Lemma enhancement_item_other key v message :
  isinstance_list v = false →
  enhancement_item (key, v) message =
    p ← _package_parameter key v (operationParam message);
    Ok (with_operationParam p message).
Proof. intros Hv. simpl. by rewrite Hv. Qed.

(** Only a list reaches the StringList map. *)
Lemma _package_parameter_mapStrList key v message message' :
  isinstance_list v = false →
  _package_parameter key v message = Ok message' →
  mapStrList message' = mapStrList message.
Proof.
  intros Hv Hrun.
  apply _package_parameter_Ok_update in Hrun as (update & Hu & _ & ->).
  destruct v as [|b|z|f|s|l|d]; try discriminate; simpl in Hu;
    try (by injection Hu as <-).
  apply bind_Ok in Hu as (z' & _ & Hu). by injection Hu as <-.
Qed.

Lemma check_all_app {A B : Type} (check : A → result B) (l1 l2 : list A) :
  check_all check (l1 ++ l2) =
    bs1 ← check_all check l1; bs2 ← check_all check l2; Ok (bs1 ++ bs2).
Proof.
  induction l1 as [|a l1 IH]; simpl.
  - by destruct (check_all check l2).
  - destruct (check a) as [b|e]; simpl; [|done].
    rewrite IH. destruct (check_all check l1) as [bs1|e]; simpl; [|done].
    by destruct (check_all check l2).
Qed.

Lemma check_all_app_Ok {A B : Type} (check : A → result B) l1 l2 bs1 bs2 :
  check_all check l1 = Ok bs1 → check_all check l2 = Ok bs2 →
  check_all check (l1 ++ l2) = Ok (bs1 ++ bs2).
Proof. intros H1 H2. by rewrite check_all_app, H1, H2. Qed.

Lemma check_all_length {A B : Type} (check : A → result B) l bs :
  check_all check l = Ok bs → length bs = length l.
Proof.
  revert bs. induction l as [|a l IH]; intros bs; simpl.
  - by intros [= <-].
  - intros Hrun. apply bind_Ok in Hrun as (b & _ & Hrun).
    apply bind_Ok in Hrun as (bs' & Hbs & Hrun). injection Hrun as <-.
    simpl. by rewrite (IH bs').
Qed.

Lemma check_all_Err {A B : Type} (check : A → result B) l a :
  a ∈ l → (∃ e, check a = Err e) → ∃ e, check_all check l = Err e.
Proof.
  intros Hin [e He].
  induction l as [|x l IH]; [by apply elem_of_nil in Hin|].
  simpl. apply elem_of_cons in Hin as [<-|Hin].
  - rewrite He. by exists e.
  - destruct (check x) as [b|e']; simpl; [|by exists e'].
    destruct (IH Hin) as [e' ->]. by exists e'.
Qed.

Lemma list_elements_cons all_int kv d :
  list_elements all_int (kv :: d) =
    match snd kv with
    | VList l => if Bool.eqb (forallb isinstance_int l) all_int then l else []
    | _ => []
    end ++ list_elements all_int d.
Proof. reflexivity. Qed.

(** What one entry of an operation does to the three fields. *)
Lemma enhancement_item_fields kv message message' :
  enhancement_item kv message = Ok message' →
  ∃ zs fs,
    check_all to_int32 (list_elements true [kv]) = Ok zs ∧
    check_all to_float (list_elements false [kv]) = Ok fs ∧
    size message' = size message ++ zs ∧
    weights message' = weights message ++ fs ∧
    mapStrList (operationParam message') =
      mapStrList (operationParam message).
Proof.
  destruct kv as [key v]. unfold list_elements. simpl.
  destruct (isinstance_list v) eqn:Hv.
  - destruct v as [| | | | |l|]; try discriminate.
    destruct (forallb isinstance_int l); simpl; intros Hrun.
    + unfold extend_size in Hrun.
      apply bind_Ok in Hrun as (zs & Hzs & Hrun). injection Hrun as <-.
      exists zs, []. simpl. by rewrite !app_nil_r.
    + unfold extend_weights in Hrun.
      apply bind_Ok in Hrun as (fs & Hfs & Hrun). injection Hrun as <-.
      exists [], fs. simpl. by rewrite !app_nil_r.
  - intros Hrun. apply bind_Ok in Hrun as (p & Hp & Hrun).
    injection Hrun as <-. simpl.
    apply _package_parameter_mapStrList in Hp; [|done].
    exists [], []. rewrite !app_nil_r.
    destruct v; try discriminate; done.
Qed.

Lemma enhancement_operation_fields d : ∀ message message',
  for_each enhancement_item d message = Ok message' →
  ∃ zs fs,
    check_all to_int32 (list_elements true d) = Ok zs ∧
    check_all to_float (list_elements false d) = Ok fs ∧
    size message' = size message ++ zs ∧
    weights message' = weights message ++ fs ∧
    mapStrList (operationParam message') =
      mapStrList (operationParam message).
Proof.
  induction d as [|kv d IH]; intros message message' Hrun; simpl in Hrun.
  - injection Hrun as <-. exists [], []. by rewrite !app_nil_r.
  - apply bind_Ok in Hrun as (m1 & Hitem & Hrun).
    apply enhancement_item_fields in Hitem
      as (zs1 & fs1 & Hzs1 & Hfs1 & Hs & Hw & Hp).
    apply IH in Hrun as (zs2 & fs2 & Hzs2 & Hfs2 & Hs' & Hw' & Hp').
    exists (zs1 ++ zs2), (fs1 ++ fs2).
    rewrite !(list_elements_cons _ kv d).
    unfold list_elements in Hzs1, Hfs1. simpl in Hzs1, Hfs1.
    rewrite app_nil_r in Hzs1, Hfs1.
    rewrite (check_all_app_Ok _ _ _ _ _ Hzs1 Hzs2).
    rewrite (check_all_app_Ok _ _ _ _ _ Hfs1 Hfs2).
    rewrite Hs', Hw', Hp', Hs, Hw, Hp, !app_assoc. done.
Qed.

Lemma to_float_not_number v :
  isinstance_int v = false → isinstance_float v = false →
  to_float v = Err TypeError.
Proof. by destruct v. Qed.

(** C5, as the code has it: within an operation or sampler, a list-valued
    entry whose elements all pass the [int] test is handed to "size", any
    other list to "weights", and never to the StringList map; the field
    checks the elements: "size" takes integers of 32 bits, "weights" takes
    numbers and keeps them in single precision, and the call raises when an
    element is not accepted, so a list with an element that is not a number
    (a list of strings, say) is not stored.  When the operation is encoded,
    "size" has received the elements of the all-integer lists and "weights"
    those of the other lists, converted, each in the order of the entries,
    and the StringList map of the operation's parameter block nothing. *)
Theorem operation_list_classification :
  (∀ key l message,
     enhancement_item (key, VList l) message =
       if forallb isinstance_int l
       then zs ← check_all to_int32 l;
            Ok (mkOperation (operationParam message) (size message ++ zs)
                  (weights message))
       else fs ← check_all to_float l;
            Ok (mkOperation (operationParam message) (size message)
                  (weights message ++ fs))) ∧
  (∀ key l v message,
     v ∈ l → isinstance_int v = false → isinstance_float v = false →
     ∃ e, enhancement_item (key, VList l) message = Err e) ∧
  (∀ d message message',
     _package_enhancement_operation (VDict d) message = Ok message' →
     ∃ zs fs,
       check_all to_int32 (list_elements true d) = Ok zs ∧
       check_all to_float (list_elements false d) = Ok fs ∧
       size message' = size message ++ zs ∧
       weights message' = weights message ++ fs ∧
       mapStrList (operationParam message') =
         mapStrList (operationParam message)).
Proof.
  split_and!.
  - intros key l message. apply enhancement_item_VList.
  - intros key l v message Hin Hint Hfloat.
    rewrite enhancement_item_VList.
    assert (Hall : forallb isinstance_int l = false).
    { apply not_true_is_false. intros Hall.
      rewrite forallb_forall in Hall.
      apply list_elem_of_In in Hin. apply Hall in Hin. congruence. }
    rewrite Hall. unfold extend_weights.
    destruct (check_all_Err to_float l v Hin) as [e ->]; [|by exists e].
    exists TypeError. by apply to_float_not_number.
  - intros d message message'. unfold _package_enhancement_operation. simpl.
    apply enhancement_operation_fields.
Qed.

Lemma booleans_and_integers_all_int l :
  booleans_and_integers l → forallb isinstance_int l = true.
Proof.
  induction 1 as [|v l Hv Hl IH]; [done|].
  simpl. rewrite IH. destruct Hv as [[b ->]|[z ->]]; done.
Qed.

Lemma check_all_to_int32_Ok l :
  bool_as_int32 = true →
  booleans_and_integers l →
  Forall (λ v, in_int32 (int_value v) = true) l →
  check_all to_int32 l = Ok (map int_value l).
Proof.
  intros Hlib Hl Hrange. induction Hl as [|v l Hv Hl IH]; [done|].
  apply List.Forall_cons_iff in Hrange as [Hr Hrange].
  simpl. rewrite (IH Hrange).
  destruct Hv as [[b ->]|[z ->]]; simpl.
  - by rewrite Hlib.
  - unfold check_int32. simpl in Hr. by rewrite Hr.
Qed.

(** C10, as the code has it: within an operation or sampler, a list whose
    elements are all booleans or integers passes the all-integer test and is
    handed to "size", whatever the message library makes of a boolean there.
    With a library that takes a boolean as 1 or 0, and the integers being
    those of 32 bits, "size" is extended by the elements, each boolean
    replaced by 1 or 0, and "weights" and the parameter block are unchanged;
    with a library that takes no boolean for an integer, a boolean in the
    list makes the call raise, and so does an integer beyond 32 bits with
    any library.  Generic dispatch of a boolean writes the Boolean map and
    not the Integer map. *)
Theorem boolean_list_goes_to_size (key : string) (l : list value)
    (message : Operation) :
  booleans_and_integers l →
  forallb isinstance_int l = true ∧
  _package_enhancement_operation (VDict [(key, VList l)]) message =
    extend_size l message ∧
  (bool_as_int32 = true →
   Forall (λ v, in_int32 (int_value v) = true) l →
   _package_enhancement_operation (VDict [(key, VList l)]) message =
     Ok (mkOperation (operationParam message)
           (size message ++ map int_value l) (weights message))) ∧
  (bool_as_int32 = false → (∃ b, VBool b ∈ l) →
   ∃ e, _package_enhancement_operation (VDict [(key, VList l)]) message =
          Err e) ∧
  (∀ z, VInt z ∈ l → in_int32 z = false →
   ∃ e, _package_enhancement_operation (VDict [(key, VList l)]) message =
          Err e) ∧
  (∀ k b p,
     _package_parameter k (VBool b) p =
       Ok (mkOperationParameter (mapStr p) (<[k := b]> (mapBool p)) (mapInt p)
             (mapDouble p) (mapStrList p))).
Proof.
  intros Hl.
  pose proof (booleans_and_integers_all_int l Hl) as Hall.
  assert (Hrun :
    _package_enhancement_operation (VDict [(key, VList l)]) message =
      extend_size l message).
  { unfold _package_enhancement_operation. simpl. rewrite Hall.
    by destruct (extend_size l message). }
  split_and!; try done.
  - intros Hlib Hrange. rewrite Hrun. unfold extend_size.
    by rewrite check_all_to_int32_Ok.
  - intros Hlib [b Hb]. rewrite Hrun. unfold extend_size.
    destruct (check_all_Err to_int32 l (VBool b) Hb) as [e ->];
      [|by exists e].
    exists TypeError. simpl. by rewrite Hlib.
  - intros z Hz Hrange. rewrite Hrun. unfold extend_size.
    destruct (check_all_Err to_int32 l (VInt z) Hz) as [e ->];
      [|by exists e].
    eexists. simpl. unfold check_int32. by rewrite Hrange.
Qed.
(** ** One node: [_package_current_dataset] *)

Lemma not_elem_of_parameter_keys key p :
  key ∉ parameter_keys p ↔ no_entry key p.
Proof.
  unfold parameter_keys, no_entry.
  rewrite !not_elem_of_union, !not_elem_of_dom. tauto.
Qed.

Lemma no_entry_empty key : no_entry key empty_parameter.
Proof. unfold no_entry. simpl. by rewrite !lookup_empty. Qed.

(** The loop of lines 73-77 appends one operation per element, in order, and
    touches no other field. *)
Lemma package_operators l message message' :
  for_each package_operator l message = Ok message' →
  ∃ ops,
    message' = mkDatasetGraph (children message) (parameter message)
                 (operations message ++ ops) (sampler message) ∧
    Forall2 encoded_operation l ops.
Proof.
  revert message. induction l as [|operator l IH]; intros message Hrun;
    simpl in Hrun.
  - injection Hrun as <-. exists []. rewrite app_nil_r.
    split; [by destruct message|]. constructor.
  - apply bind_Ok in Hrun as (m1 & Hop & Hrun).
    unfold package_operator in Hop.
    apply bind_Ok in Hop as (o & Ho & Hop). injection Hop as <-.
    apply IH in Hrun as (ops & -> & Hops). simpl.
    exists (o :: ops). split.
    + by rewrite <- app_assoc.
    + by constructor.
Qed.

Lemma current_dataset_item_structural key v message :
  truthy v = true → key = "operations" ∨ key = "sampler" →
  current_dataset_item (key, v) message =
    if String.eqb key "operations"
    then operators ← iter v; for_each package_operator operators message
    else s ← _package_enhancement_operation v (sampler message);
         Ok (with_sampler s message).
Proof. intros Hv [-> | ->]; simpl; by rewrite Hv. Qed.

Lemma current_dataset_item_generic key v message :
  truthy v = false ∨ (key ≠ "operations" ∧ key ≠ "sampler") →
  current_dataset_item (key, v) message =
    p ← _package_parameter key v (parameter message);
    Ok (with_parameter p message).
Proof.
  simpl. intros [-> | [H1 H2]]; [done|].
  apply String.eqb_neq in H1, H2. rewrite H1, H2.
  by rewrite !andb_false_r.
Qed.

(** What one turn does to the fields of the node. *)
Lemma current_dataset_item_frame key v message message' :
  current_dataset_item (key, v) message = Ok message' →
  children message' = children message ∧
  (truthy v = true → key = "operations" ∨ key = "sampler" →
     parameter message' = parameter message) ∧
  parameter_keys (parameter message')
    ⊆ parameter_keys (parameter message) ∪ {[key]} ∧
  ∃ ops,
    operations message' = operations message ++ ops ∧
    Forall2 encoded_operation (operators_of [(key, v)]) ops.
Proof.
  unfold operators_of. simpl.
  destruct (truthy v && String.eqb key "operations") eqn:Hop;
    [|destruct (truthy v && String.eqb key "sampler") eqn:Hsa].
  - intros Hrun. inv_ok. apply package_operators in Hrun as (ops & -> & Hops).
    simpl. split_and!; try done; [set_solver|].
    exists ops. rewrite Hr, app_nil_r. done.
  - intros Hrun. inv_ok. simpl. split_and!; try done; [set_solver|].
    exists []. rewrite app_nil_r. split; [done|constructor].
  - intros Hrun. inv_ok. simpl. split_and!; try done.
    + intros Hv [-> | ->]; simpl in *; rewrite Hv in *; discriminate.
    + by eapply _package_parameter_keys.
    + exists []. rewrite app_nil_r. split; [done|constructor].
Qed.

Lemma operators_of_cons kv d :
  operators_of (kv :: d) = operators_of [kv] ++ operators_of d.
Proof. unfold operators_of. simpl. by rewrite app_nil_r. Qed.

Lemma current_dataset_operations d : ∀ message message',
  for_each current_dataset_item d message = Ok message' →
  children message' = children message ∧
  ∃ ops,
    operations message' = operations message ++ ops ∧
    Forall2 encoded_operation (operators_of d) ops.
Proof.
  induction d as [|[key v] d IH]; intros message message' Hrun;
    simpl in Hrun.
  - inv_ok. split; [done|]. exists []. rewrite app_nil_r.
    split; [done|constructor].
  - apply bind_Ok in Hrun as (m1 & Hitem & Hrun).
    apply current_dataset_item_frame in Hitem as (Hc & _ & _ & ops1 & Ho1 & H1).
    apply IH in Hrun as (Hc' & ops2 & Ho2 & H2).
    split; [congruence|].
    exists (ops1 ++ ops2). rewrite Ho2, Ho1, <- app_assoc. split; [done|].
    rewrite operators_of_cons. by apply Forall2_app.
Qed.

(** In a dict, the operators are the elements of its ["operations"] entry. *)
Lemma operators_of_wf d l :
  dict_wf d → ("operations", VList l) ∈ d → operators_of d = l.
Proof.
  unfold dict_wf.
  induction d as [|[k v] d IH]; intros Hwf Hin.
  - by apply elem_of_nil in Hin.
  - simpl in Hwf. apply NoDup_cons in Hwf as [Hk Hwf].
    rewrite operators_of_cons.
    apply elem_of_cons in Hin as [[= <- <-]|Hin].
    + assert (Hrest : operators_of d = []).
      { clear IH Hwf. induction d as [|[k' v'] d IHd]; [done|].
        rewrite operators_of_cons. rewrite IHd by set_solver.
        unfold operators_of. simpl.
        destruct (String.eqb_spec k' "operations") as [->|_];
          [set_solver|].
        by rewrite andb_false_r. }
      rewrite Hrest, app_nil_r. unfold operators_of. simpl.
      rewrite app_nil_r. by destruct l.
    + rewrite (IH Hwf Hin).
      assert (k ≠ "operations").
      { intros ->. apply Hk. apply list_elem_of_fmap.
        by exists ("operations", VList l). }
      unfold operators_of at 1. simpl.
      apply String.eqb_neq in H. rewrite H. by rewrite andb_false_r.
Qed.

(** A structural key whose values are truthy stays out of the parameter
    block of the node. *)
Lemma current_dataset_structural_keys key d message message' :
  (∀ value, (key, value) ∈ d → truthy value = true) →
  key = "operations" ∨ key = "sampler" →
  no_entry key (parameter message) →
  for_each current_dataset_item d message = Ok message' →
  no_entry key (parameter message').
Proof.
  intros Htruthy Hkey. rewrite <- !not_elem_of_parameter_keys.
  revert message message'.
  apply (for_each_invariant
           (λ m, key ∉ parameter_keys (parameter m)) current_dataset_item).
  intros [k v] m m' Hin Hm Hitem.
  apply current_dataset_item_frame in Hitem as (_ & Hsame & Hsub & _).
  destruct (decide (k = key)) as [->|Hne].
  - rewrite Hsame; [done| |done]. by apply Htruthy.
  - set_solver.
Qed.

(** C9, as the code has it: for a node whose "operations" key holds a list,
    a successful encoding appends one operation per element of the list, in
    the order of the list, each element being a map and the operation its
    encoding; a null element is not skipped: it makes the encoding of the
    node fail. *)
Theorem operations_in_list_order (d : dict) (l : list value)
    (message : DatasetGraph) :
  dict_wf d →
  ("operations", VList l) ∈ d →
  (∀ message',
     _package_current_dataset (VDict d) message = Ok message' →
     ∃ ops,
       operations message' = operations message ++ ops ∧
       Forall2
         (λ operator o,
            (∃ od, operator = VDict od) ∧
            _package_enhancement_operation operator empty_operation = Ok o)
         l ops) ∧
  (VNone ∈ l →
     ∃ e, _package_current_dataset (VDict d) message = Err e).
Proof.
  intros Hwf Hin.
  assert (Hok : ∀ message',
     _package_current_dataset (VDict d) message = Ok message' →
     ∃ ops,
       operations message' = operations message ++ ops ∧
       Forall2
         (λ operator o,
            (∃ od, operator = VDict od) ∧
            _package_enhancement_operation operator empty_operation = Ok o)
         l ops).
  { intros message' Hrun. unfold _package_current_dataset in Hrun.
    simpl in Hrun.
    apply current_dataset_operations in Hrun as (_ & ops & Hops & Hall).
    rewrite (operators_of_wf d l Hwf Hin) in Hall.
    exists ops. split; [done|].
    eapply Forall2_impl; [exact Hall|].
    intros operator o Henc. split; [|exact Henc].
    unfold encoded_operation in Henc.
    destruct operator; try discriminate. eauto. }
  split; [exact Hok|].
  intros Hnull.
  destruct (_package_current_dataset (VDict d) message) as [message'|e] eqn:E;
    [|by exists e].
  destruct (Hok message' eq_refl) as (ops & _ & Hall).
  apply list_elem_of_lookup in Hnull as [i Hi].
  destruct (Forall2_lookup_l _ _ _ _ _ Hall Hi) as (o & _ & [od Hod] & _).
  discriminate.
Qed.

(** ** The walk over the children: [_package_children] *)

Lemma filter_truthy_cons child l :
  filter (λ c, truthy c = true) (child :: l) =
    if truthy child then child :: filter (λ c, truthy c = true) l
    else filter (λ c, truthy c = true) l.
Proof.
  rewrite filter_cons. destruct (truthy child); by case_decide.
Qed.

Lemma truthy_VList l : truthy (VList l) = false ↔ l = [].
Proof. by destruct l. Qed.

Lemma truthy_VDict d : truthy (VDict d) = false ↔ d = [].
Proof. by destruct d. Qed.

Lemma child_after_falsy child : truthy child = false → child_after child = child.
Proof.
  destruct child as [| | | | | |d]; try done.
  intros Hd. apply truthy_VDict in Hd. by subst.
Qed.

(** The loop leaves each child without its ["children"] entry, adds the
    message of each truthy child in order, and touches no other field. *)
Lemma children_loop_spec l : ∀ message l' message',
  children_loop l message = Ok (l', message') →
  l' = map child_after l ∧
  ∃ nodes,
    message' = set_children (children message ++ nodes) message ∧
    Forall2 (λ child node, encode_child child = Ok node)
      (filter (λ child, truthy child = true) l) nodes.
Proof.
  induction l as [|child rest IH]; intros message l' message' Hrun;
    simpl in Hrun.
  - injection Hrun as <- <-. split; [done|]. exists [].
    rewrite app_nil_r. split; [by destruct message|constructor].
  - apply bind_Ok in Hrun as ([child' m1] & Hchild & Hrun).
    apply bind_Ok in Hrun as ([rest' m2] & Hrest & Hrun).
    injection Hrun as <- <-.
    apply IH in Hrest as (-> & nodes & -> & Hnodes).
    rewrite filter_truthy_cons.
    destruct (truthy child) eqn:Ht.
    + rewrite package_child_truthy in Hchild by done.
      apply bind_Ok in Hchild as (node & Hnode & Hchild).
      injection Hchild as <- <-.
      split; [done|]. exists (node :: nodes). simpl.
      split; [unfold set_children; simpl; by rewrite <- app_assoc|].
      by constructor.
    + rewrite package_child_falsy in Hchild by done.
      injection Hchild as <- <-.
      split; [simpl; by rewrite child_after_falsy|].
      exists nodes. done.
Qed.

(** Without a ["children"] entry to pop, a truthy child raises. *)
Lemma package_child_None child message child' message' :
  package_child None child message = Ok (child', message') →
  truthy child = false ∧ child' = child ∧ message' = message.
Proof.
  unfold package_child. destruct (truthy child); [|by intros [= <- <-]].
  destruct child; discriminate.
Qed.

Lemma package_plain_children_spec l : ∀ message message',
  package_plain_children l message = Ok message' → message' = message.
Proof.
  unfold package_plain_children.
  induction l as [|child l IH]; intros message message' Hrun; simpl in Hrun.
  - congruence.
  - apply bind_Ok in Hrun as (m1 & Hchild & Hrun).
    apply fmap_Ok in Hchild as ([c m] & Hchild & ->).
    apply package_child_None in Hchild as (_ & _ & ->).
    by apply IH.
Qed.

Lemma _package_children_spec cs message cs' message' :
  _package_children cs message = Ok (cs', message') →
  cs' = children_after cs ∧
  ∃ nodes,
    message' = set_children (children message ++ nodes) message ∧
    Forall2 (λ child node, encode_child child = Ok node)
      (truthy_children cs) nodes.
Proof.
  destruct (isinstance_list cs) eqn:Hl.
  - destruct cs as [| | | | |l|]; try discriminate.
    rewrite _package_children_VList. intros Hrun.
    apply bind_Ok in Hrun as ([l' m] & Hloop & Hrun).
    injection Hrun as <- <-.
    apply children_loop_spec in Hloop as (-> & nodes & -> & Hnodes).
    split; [done|]. by exists nodes.
  - rewrite _package_children_not_list by done. intros Hrun.
    apply bind_Ok in Hrun as (l & Hiter & Hrun).
    apply bind_Ok in Hrun as (m & Hplain & Hrun).
    injection Hrun as <- <-.
    apply package_plain_children_spec in Hplain as ->.
    split; [by destruct cs|].
    exists []. rewrite app_nil_r.
    split; [by destruct message|].
    destruct cs; try discriminate; constructor.
Qed.

Lemma truthy_children_falsy children :
  truthy children = false → truthy_children children = [].
Proof.
  destruct children as [| | | | |l|]; try done.
  intros Hl. apply truthy_VList in Hl. by subst.
Qed.

Lemma children_after_falsy children :
  truthy children = false → children_after children = children.
Proof.
  destruct children as [| | | | |l|]; try done.
  intros Hl. apply truthy_VList in Hl. by subst.
Qed.

Lemma walk_children_spec cs message cs' message' :
  walk_children cs message = Ok (cs', message') →
  cs' = children_after cs ∧
  ∃ nodes,
    message' = set_children (children message ++ nodes) message ∧
    Forall2 (λ child node, encode_child child = Ok node)
      (truthy_children cs) nodes.
Proof.
  unfold walk_children. destruct (truthy cs) eqn:Ht.
  - apply _package_children_spec.
  - intros [= <- <-]. split; [by rewrite children_after_falsy|].
    exists []. rewrite app_nil_r, truthy_children_falsy by done.
    split; [by destruct message|constructor].
Qed.

(** The parameters of a node do not depend on the children the message
    already has. *)
Lemma for_each_commute {A S : Type} (body : A → S → result S) (f : S → S)
    (l : list A) :
  (∀ a s, body a (f s) = f <$> body a s) →
  ∀ s, for_each body l (f s) = f <$> for_each body l s.
Proof.
  intros Hbody. induction l as [|a l IH]; intros s; [done|].
  simpl. rewrite Hbody.
  destruct (body a s) as [s'|e]; [|done].
  simpl. apply IH.
Qed.

Lemma package_operator_set_children nodes operator message :
  package_operator operator (set_children nodes message) =
    set_children nodes <$> package_operator operator message.
Proof.
  unfold package_operator.
  by destruct (_package_enhancement_operation operator empty_operation).
Qed.

Lemma current_dataset_item_set_children nodes kv message :
  current_dataset_item kv (set_children nodes message) =
    set_children nodes <$> current_dataset_item kv message.
Proof.
  destruct kv as [key v]. simpl.
  destruct (truthy v && String.eqb key "operations").
  - destruct (iter v) as [l|e]; [|done]. simpl.
    apply for_each_commute. intros. apply package_operator_set_children.
  - destruct (truthy v && String.eqb key "sampler").
    + by destruct (_package_enhancement_operation v (sampler message)).
    + by destruct (_package_parameter key v (parameter message)).
Qed.

Lemma current_dataset_set_children nodes d message :
  for_each current_dataset_item d (set_children nodes message) =
    set_children nodes <$> for_each current_dataset_item d message.
Proof.
  apply for_each_commute. intros. apply current_dataset_item_set_children.
Qed.

Lemma package_dataset_graph_present d cs :
  dict_get "children" d = Some cs →
  package_dataset_graph d =
    '(_, gc) ← walk_children cs empty_graph;
    _package_current_dataset (VDict (dict_delete "children" d)) gc.
Proof.
  intros Hget.
  unfold package_dataset_graph, package_dataset_graph_body, dict_contains,
    dict_pop, walk_children.
  rewrite Hget. simpl.
  destruct (if truthy cs then _ else _) as [[cs' gc]|e]; [|done].
  simpl.
  by destruct (_package_current_dataset _ gc).
Qed.

(** ** The root: [package_dataset_graph] *)

Lemma package_dataset_graph_absent d :
  dict_get "children" d = None → package_dataset_graph d = Ok empty_graph.
Proof.
  intros Hget.
  unfold package_dataset_graph, package_dataset_graph_body, dict_contains.
  by rewrite Hget.
Qed.

(** C2, as the code has it: when the root has a "children" key, the encoder
    handles the children first (an exception of the walk is the exception of
    the call) and then builds the node's own parameters from the remaining
    keys: the result has the children of the walk and the parameters,
    operations and sampler that the per-key dispatch gives for the remaining
    keys.  When the "children" key is absent the encoder returns the empty
    message: no children and no parameter entries. *)
Theorem parameters_after_children (d : dict) :
  (dict_get "children" d = None → package_dataset_graph d = Ok empty_graph) ∧
  (∀ cs,
     dict_get "children" d = Some cs →
     (∀ e, walk_children cs empty_graph = Err e →
           package_dataset_graph d = Err e) ∧
     (∀ cs' gc,
        walk_children cs empty_graph = Ok (cs', gc) →
        package_dataset_graph d =
          _package_current_dataset (VDict (dict_delete "children" d)) gc ∧
        package_dataset_graph d =
          set_children (children gc) <$>
            _package_current_dataset (VDict (dict_delete "children" d))
              empty_graph)).
Proof.
  split.
  - apply package_dataset_graph_absent.
  - intros cs Hget. rewrite (package_dataset_graph_present d cs Hget).
    split.
    + intros e ->. done.
    + intros cs' gc Hwalk. rewrite Hwalk. simpl. split; [done|].
      apply walk_children_spec in Hwalk as (_ & nodes & -> & _).
      simpl. unfold _package_current_dataset. simpl.
      apply (current_dataset_set_children nodes _ empty_graph).
Qed.

Lemma dict_delete_subseteq (key : string) (d : dict) :
  dict_delete key d ⊆ d.
Proof.
  induction d as [|[k w] d IH]; simpl; [done|].
  destruct (String.eqb k key).
  - intros kv Hin. by right.
  - intros kv Hin. apply elem_of_cons in Hin as [->|Hin]; [by left|].
    right. by apply IH.
Qed.

(** The message of a child is built as the message of the root is: the walk
    over the grandsons, from the empty message, then the remaining keys. *)
Lemma encode_child_inv child node :
  encode_child child = Ok node →
  ∃ d grandson cs' gc,
    child = VDict d ∧ dict_get "children" d = Some grandson ∧
    walk_children grandson empty_graph = Ok (cs', gc) ∧
    for_each current_dataset_item (dict_delete "children" d) gc = Ok node.
Proof.
  destruct child as [| | | | | |d]; try discriminate.
  unfold encode_child, dict_pop.
  destruct (dict_get "children" d) as [grandson|] eqn:Hget; [|discriminate].
  simpl. intros Hrun.
  apply bind_Ok in Hrun as (m & Hwalk & Hrun).
  exists d, grandson.
  assert (Hwalk' : ∃ cs', walk_children grandson empty_graph = Ok (cs', m)).
  { unfold walk_children. destruct (truthy grandson).
    - apply fmap_Ok in Hwalk as ([cs' m'] & Hwalk & ->). by exists cs'.
    - injection Hwalk as <-. by exists grandson. }
  destruct Hwalk' as (cs' & Hwalk').
  exists cs', m. done.
Qed.

Lemma encode_child_children child node :
  encode_child child = Ok node →
  ∃ d grandson,
    child = VDict d ∧ dict_get "children" d = Some grandson ∧
    Forall2 (λ child node, encode_child child = Ok node)
      (truthy_children grandson) (children node).
Proof.
  intros Hrun.
  apply encode_child_inv in Hrun
    as (d & grandson & cs' & gc & -> & Hget & Hwalk & Hrun).
  exists d, grandson. split; [done|]. split; [done|].
  apply walk_children_spec in Hwalk as (_ & nodes & -> & Hnodes).
  apply current_dataset_operations in Hrun as (-> & _).
  exact Hnodes.
Qed.

(** C1, as the code has it: a node whose entry under "operations" or
    "sampler" is falsy hands the entry to generic dispatch like any other
    key; a key "operations" or "sampler" whose value is truthy gets no entry
    in any of the five parameter maps of the node, for the root and for every
    child node. *)
Theorem truthy_structural_key_excluded (key : string) :
  key = "operations" ∨ key = "sampler" →
  (∀ value message,
     truthy value = false →
     current_dataset_item (key, value) message =
       p ← _package_parameter key value (parameter message);
       Ok (with_parameter p message)) ∧
  (∀ d message message',
     (∀ value, (key, value) ∈ d → truthy value = true) →
     no_entry key (parameter message) →
     _package_current_dataset (VDict d) message = Ok message' →
     no_entry key (parameter message')) ∧
  (∀ d g,
     (∀ value, (key, value) ∈ d → truthy value = true) →
     package_dataset_graph d = Ok g →
     no_entry key (parameter g)) ∧
  (∀ d node,
     (∀ value, (key, value) ∈ d → truthy value = true) →
     encode_child (VDict d) = Ok node →
     no_entry key (parameter node)).
Proof.
  intros Hkey. split_and!.
  - intros value message Hv. apply current_dataset_item_generic. by left.
  - intros d message message' Htruthy Hfresh Hrun.
    by eapply current_dataset_structural_keys.
  - intros d g Htruthy Hrun.
    destruct (dict_get "children" d) as [cs|] eqn:Hget.
    + rewrite (package_dataset_graph_present d cs Hget) in Hrun.
      apply bind_Ok in Hrun as ([cs' gc] & Hwalk & Hrun).
      apply walk_children_spec in Hwalk as (_ & nodes & -> & _).
      unfold _package_current_dataset in Hrun. simpl in Hrun.
      eapply current_dataset_structural_keys; [|exact Hkey| |exact Hrun].
      * intros value Hin. by apply Htruthy, (dict_delete_subseteq "children").
      * apply no_entry_empty.
    + rewrite (package_dataset_graph_absent d Hget) in Hrun.
      injection Hrun as <-. apply no_entry_empty.
  - intros d node Htruthy Hrun.
    apply encode_child_inv in Hrun
      as (d' & grandson & cs' & gc & [= <-] & Hget & Hwalk & Hrun).
    apply walk_children_spec in Hwalk as (_ & nodes & -> & _).
    eapply current_dataset_structural_keys; [|exact Hkey| |exact Hrun].
    + intros value Hin. by apply Htruthy, (dict_delete_subseteq "children").
    + apply no_entry_empty.
Qed.

(** C3, as the code has it: for the root and for every nested child, the
    child nodes of a successfully encoded node correspond one to one, in
    order, to the truthy elements of the list under "children", each child
    node being the encoding of its element; falsy elements give no node; a
    falsy "children" value gives no child node, and so does a root without
    the key. *)
Theorem one_child_per_truthy_element :
  (∀ d g,
     package_dataset_graph d = Ok g →
     Forall2 (λ child node, encode_child child = Ok node)
       (truthy_children (default VNone (dict_get "children" d)))
       (children g)) ∧
  (∀ child node,
     encode_child child = Ok node →
     ∃ d grandson,
       child = VDict d ∧ dict_get "children" d = Some grandson ∧
       Forall2 (λ child node, encode_child child = Ok node)
         (truthy_children grandson) (children node)) ∧
  (∀ cs, truthy cs = false → truthy_children cs = []).
Proof.
  split; [|split].
  - intros d g Hrun.
    destruct (dict_get "children" d) as [cs|] eqn:Hget.
    + rewrite (package_dataset_graph_present d cs Hget) in Hrun.
      apply bind_Ok in Hrun as ([cs' gc] & Hwalk & Hrun).
      apply walk_children_spec in Hwalk as (_ & nodes & -> & Hnodes).
      unfold _package_current_dataset in Hrun. simpl in Hrun.
      apply current_dataset_operations in Hrun as (-> & _).
      exact Hnodes.
    + rewrite (package_dataset_graph_absent d Hget) in Hrun.
      injection Hrun as <-. constructor.
  - apply encode_child_children.
  - apply truthy_children_falsy.
Qed.

Lemma dict_get_delete_ne key key' d :
  key ≠ key' → dict_get key (dict_delete key' d) = dict_get key d.
Proof.
  intros Hne. induction d as [|[k v] d IH]; [done|].
  simpl. destruct (String.eqb_spec k key') as [->|Hk]; simpl.
  - apply not_eq_sym, String.eqb_neq in Hne. by rewrite Hne.
  - by rewrite IH.
Qed.

(** C8, as the code has it: the walk over the children changes the maps it
    is given: it removes the "children" entry of every child map it encodes
    (and the call removes it from the root map) and changes no other entry.
    The maps are the copy [json.loads] made at line 37. *)
Theorem walk_removes_children_entries :
  (∀ cs message cs' message',
     _package_children cs message = Ok (cs', message') →
     cs' = match cs with
           | VList l =>
               VList (map (λ child,
                             match child with
                             | VDict d => VDict (dict_delete "children" d)
                             | _ => child
                             end) l)
           | _ => cs
           end) ∧
  (∀ d d' cs' g,
     package_dataset_graph_body d = Ok (d', cs', g) →
     d' = dict_delete "children" d ∧
     cs' = children_after <$> dict_get "children" d) ∧
  (∀ key d,
     key ≠ "children" →
     dict_get key (dict_delete "children" d) = dict_get key d).
Proof.
  split; [|split].
  - intros cs message cs' message' Hrun.
    by apply _package_children_spec in Hrun as (-> & _).
  - intros d d' cs' g. unfold package_dataset_graph_body, dict_contains, dict_pop.
    destruct (dict_get "children" d) as [cs|] eqn:Hget.
    + simpl. intros Hrun.
      apply bind_Ok in Hrun as ([cs1 gc] & Hwalk & Hrun).
      apply bind_Ok in Hrun as (g1 & _ & Hrun).
      injection Hrun as <- <- <-.
      apply (walk_children_spec cs empty_graph) in Hwalk as (-> & _).
      done.
    + intros [= <- <- <-].
      split; [|done].
      clear -Hget. induction d as [|[k v] d IH]; [done|].
      simpl in *. destruct (String.eqb k "children"); [discriminate|].
      by rewrite <- IH.
  - intros key d Hne. by apply dict_get_delete_ne.
Qed.

(** ** The exceptions of the encoder *)

Lemma check_all_Err_inv {A B : Type} (check : A → result B) l e :
  check_all check l = Err e → ∃ a, a ∈ l ∧ check a = Err e.
Proof.
  induction l as [|x l IH]; simpl; [discriminate|].
  intros Hrun. apply bind_Err in Hrun as [Hx | (b & _ & Hrun)].
  - exists x. split; [by left|done].
  - apply bind_Err in Hrun as [Hl | (bs & _ & Hrun)]; [|discriminate].
    destruct (IH Hl) as (a & Hin & Ha). exists a. split; [by right|done].
Qed.

(** What the fields [size] and [weights] raise. *)
Lemma check_all_to_int32_Err l e :
  check_all to_int32 l = Err e →
  e = TypeError ∨ ∃ z, e = ValueError (out_of_range_message z).
Proof.
  intros Hrun. apply check_all_Err_inv in Hrun as (v & _ & Hv).
  destruct v as [|b|z|f|s|l'|d]; simpl in Hv; try (left; congruence).
  - destruct bool_as_int32; [discriminate|left; congruence].
  - unfold check_int32 in Hv. destruct (in_int32 z); [discriminate|].
    right. exists z. congruence.
Qed.

Lemma float_of_int_Err z e : float_of_int z = Err e → e = OverflowError.
Proof.
  unfold float_of_int.
  destruct (binary_normalize 53 1024 z 0 false); congruence.
Qed.

Lemma check_all_to_float_Err l e :
  check_all to_float l = Err e → e = TypeError ∨ e = OverflowError.
Proof.
  intros Hrun. apply check_all_Err_inv in Hrun as (v & _ & Hv).
  destruct v as [|b|z|f|s|l'|d]; simpl in Hv; try (left; congruence).
  - destruct bool_as_float; [|left; congruence].
    apply bind_Err in Hv as [Hv | (f & _ & Hv)]; [|discriminate].
    right. by eapply float_of_int_Err.
  - apply bind_Err in Hv as [Hv | (f & _ & Hv)]; [|discriminate].
    right. by eapply float_of_int_Err.
Qed.

(** The [ValueError] of line 128 comes from an entry of the operation. *)
Lemma enhancement_operation_unsupported operation message key :
  _package_enhancement_operation operation message =
    Err (ValueError (unsupported_message key)) →
  ∃ value, entry_of key value operation ∧ unsupported key value = true.
Proof.
  destruct operation as [| | | | | |d]; try discriminate.
  unfold _package_enhancement_operation. simpl. intros Hrun.
  apply for_each_Err in Hrun as ([k v] & t & Hin & Hitem).
  destruct (isinstance_list v) eqn:Hv.
  - destruct v as [| | | | |l|]; try discriminate.
    rewrite enhancement_item_VList in Hitem.
    destruct (forallb isinstance_int l).
    + unfold extend_size in Hitem.
      apply bind_Err in Hitem as [Hitem | (zs & _ & Hitem)]; [|discriminate].
      apply check_all_to_int32_Err in Hitem as [Hitem | [z Hitem]];
        [discriminate|].
      exfalso. apply (out_of_range_not_unsupported z key). congruence.
    + unfold extend_weights in Hitem.
      apply bind_Err in Hitem as [Hitem | (fs & _ & Hitem)]; [|discriminate].
      apply check_all_to_float_Err in Hitem as [Hitem | Hitem]; discriminate.
  - rewrite enhancement_item_other in Hitem by done.
    apply bind_Err in Hitem as [Hitem | (p & _ & Hitem)]; [|discriminate].
    apply _package_parameter_Err_unsupported in Hitem as [-> Hu].
    exists v. split; [|done]. by apply entry_here.
Qed.

Lemma iter_dict_element v operators od :
  iter v = Ok operators → VDict od ∈ operators → v = VList operators.
Proof.
  destruct v as [| | | |s|l|d]; simpl; try discriminate.
  - intros [= <-] Hin. exfalso.
    induction s as [|c s IH]; simpl in Hin; [by apply elem_of_nil in Hin|].
    apply elem_of_cons in Hin as [Hin|Hin]; [discriminate|auto].
  - by intros [= <-].
  - intros [= <-] Hin. exfalso.
    apply list_elem_of_fmap in Hin as (kv & Hkv & _). discriminate.
Qed.

(** The [ValueError] of line 128 comes from an entry of the node, of one of
    its operations or of its sampler. *)
Lemma current_dataset_unsupported d message key :
  for_each current_dataset_item d message =
    Err (ValueError (unsupported_message key)) →
  ∃ value, entry_of key value (VDict d) ∧ unsupported key value = true.
Proof.
  intros Hrun.
  apply for_each_Err in Hrun as ([k v] & t & Hin & Hitem).
  simpl in Hitem.
  destruct (truthy v && String.eqb k "operations");
    [|destruct (truthy v && String.eqb k "sampler")].
  - apply bind_Err in Hitem as [Hitem | (operators & Hiter & Hitem)].
    { destruct v; discriminate. }
    apply for_each_Err in Hitem as (operator & t' & Hop & Hitem).
    unfold package_operator in Hitem.
    apply bind_Err in Hitem as [Hitem | (o & _ & Hitem)]; [|discriminate].
    apply enhancement_operation_unsupported in Hitem as Hfound.
    destruct Hfound as (value & Hentry & Hu).
    destruct operator as [| | | | | |od]; try discriminate.
    pose proof (iter_dict_element _ _ _ Hiter Hop) as ->.
    exists value. split; [|done].
    apply (entry_in_dict key value k (VList operators) d Hin).
    by apply (entry_in_list key value operators (VDict od)).
  - apply bind_Err in Hitem as [Hitem | (o & _ & Hitem)]; [|discriminate].
    apply enhancement_operation_unsupported in Hitem
      as (value & Hentry & Hu).
    exists value. split; [|done].
    by apply (entry_in_dict key value k v d Hin).
  - apply bind_Err in Hitem as [Hitem | (p & _ & Hitem)]; [|discriminate].
    apply _package_parameter_Err_unsupported in Hitem as [-> Hu].
    exists v. split; [|done]. by apply entry_here.
Qed.

Lemma entry_of_subdict key v d d' :
  (∀ kv, kv ∈ d' → kv ∈ d) →
  entry_of key v (VDict d') → entry_of key v (VDict d).
Proof.
  intros Hsub Hentry. inversion Hentry as [d0 Hin|k w d0 Hin Hw|]; subst.
  - apply entry_here. auto.
  - apply (entry_in_dict key v k w d); auto.
Qed.

Lemma children_loop_Err l : ∀ message e,
  children_loop l message = Err e →
  ∃ child message',
    child ∈ l ∧ package_child (pop_children child) child message' = Err e.
Proof.
  induction l as [|child rest IH]; intros message e Hrun; simpl in Hrun.
  - discriminate.
  - apply bind_Err in Hrun as [Hrun | ([child' m1] & _ & Hrun)].
    + exists child, message. split; [by left|done].
    + apply bind_Err in Hrun as [Hrun | ([rest' m2] & _ & Hrun)];
        [|discriminate].
      destruct (IH _ _ Hrun) as (c & m' & Hin & Hc).
      exists c, m'. split; [by right|done].
Qed.

Lemma package_plain_children_Err l message e :
  package_plain_children l message = Err e →
  e = KeyError "children" ∨ e = TypeError ∨ e = AttributeError.
Proof.
  unfold package_plain_children. intros Hrun.
  apply for_each_Err in Hrun as (child & t & _ & Hchild).
  apply fmap_Err in Hchild. unfold package_child in Hchild.
  destruct (truthy child); [|discriminate].
  destruct child; try discriminate; injection Hchild as <-; auto.
Qed.

(** The [ValueError] of line 128 the walk raises comes from an entry of a
    map under the value walked.  The statement for the value under
    ["children"] of a dict is carried along for the induction. *)
Lemma _package_children_unsupported key cs :
  (∀ message,
     _package_children cs message =
       Err (ValueError (unsupported_message key)) →
     ∃ value, entry_of key value cs ∧ unsupported key value = true) ∧
  (∀ d grandson,
     cs = VDict d → dict_get "children" d = Some grandson →
     ∀ message,
       _package_children grandson message =
         Err (ValueError (unsupported_message key)) →
       ∃ value, entry_of key value grandson ∧ unsupported key value = true).
Proof.
  induction cs as [| | | | |l IH|d IH] using value_nested_ind;
    try (split; [intros; discriminate | intros; discriminate]).
  - split; [|intros; discriminate].
    intros message Hrun. exfalso.
    rewrite _package_children_not_list in Hrun by done.
    apply bind_Err in Hrun as [Hrun | (l & _ & Hrun)]; [discriminate|].
    apply bind_Err in Hrun as [Hrun | (m & _ & Hrun)]; [|discriminate].
    apply package_plain_children_Err in Hrun as [H|[H|H]]; discriminate.
  - split; [|intros; discriminate].
    intros message Hrun.
    rewrite _package_children_VList in Hrun.
    apply bind_Err in Hrun as [Hrun | ([l' m] & _ & Hrun)]; [|discriminate].
    apply children_loop_Err in Hrun as (child & m' & Hin & Hchild).
    rewrite Forall_forall in IH.
    destruct (IH child Hin) as [_ IHchild].
    destruct (truthy child) eqn:Ht;
      [|by rewrite package_child_falsy in Hchild].
    rewrite package_child_truthy in Hchild by done.
    apply bind_Err in Hchild as [Hchild | (node & _ & Hchild)];
      [|discriminate].
    destruct child as [| | | | | |d]; try discriminate.
    unfold encode_child, dict_pop in Hchild.
    destruct (dict_get "children" d) as [grandson|] eqn:Hget;
      [|discriminate].
    simpl in Hchild.
    apply bind_Err in Hchild as [Hchild | (m1 & _ & Hchild)].
    + destruct (truthy grandson); [|discriminate].
      apply fmap_Err in Hchild.
      destruct (IHchild d grandson eq_refl Hget _ Hchild)
        as (value & Hentry & Hu).
      exists value. split; [|done].
      apply (entry_in_list key value l (VDict d) Hin).
      apply dict_get_elem_of in Hget.
      by apply (entry_in_dict key value "children" grandson d).
    + unfold _package_current_dataset in Hchild. simpl in Hchild.
      apply current_dataset_unsupported in Hchild as (value & Hentry & Hu).
      exists value. split; [|done].
      apply (entry_in_list key value l (VDict d) Hin).
      eapply entry_of_subdict; [|exact Hentry].
      intros kv Hkv. by apply (dict_delete_subseteq "children" d).
  - split.
    + intros message Hrun. exfalso.
      rewrite _package_children_not_list in Hrun by done.
      apply bind_Err in Hrun as [Hrun | (l & _ & Hrun)]; [discriminate|].
      apply bind_Err in Hrun as [Hrun | (m & _ & Hrun)]; [|discriminate].
      apply package_plain_children_Err in Hrun as [H|[H|H]]; discriminate.
    + intros d' grandson [= <-] Hget.
      apply dict_get_elem_of in Hget.
      rewrite Forall_forall in IH.
      exact (proj1 (IH _ Hget)).
Qed.

(** C7, as the code has it: generic dispatch raises the [ValueError] of
    line 128 exactly when the value matches none of its rules (a map, or a
    list under the key "operations"), and the message names the key it was
    called with.  When the encoder raises this error for a key, the input
    has an entry under that key, in the map itself or in a map nested in it,
    whose value matches none of the rules.  Nothing is said of the other
    exceptions of the encoder: those the message library raises for a value
    that does not fit its field, and those Python raises for an input of
    another shape than the code expects. *)
Theorem unsupported_value_error :
  (∀ key value message,
     _package_parameter key value message =
       Err (ValueError
              (String.append "Parameter "
                 (String.append key " is not supported in event package.")))
     ↔ match value with
       | VDict _ => true
       | VList _ => String.eqb key "operations"
       | _ => false
       end = true) ∧
  (∀ k key value message,
     _package_parameter k value message =
       Err (ValueError (unsupported_message key)) →
     k = key) ∧
  (∀ dataset_dict key,
     package_dataset_graph dataset_dict =
       Err (ValueError (unsupported_message key)) →
     ∃ value,
       entry_of key value (VDict dataset_dict) ∧
       unsupported key value = true).
Proof.
  split_and!.
  - intros key value message. split.
    + intros Hrun.
      by apply (_package_parameter_Err_unsupported key value message key).
    + intros Hu. by apply _package_parameter_unsupported.
  - intros k key value message Hrun.
    by apply _package_parameter_Err_unsupported in Hrun as [-> _].
  - intros d key Hrun.
    destruct (dict_get "children" d) as [cs|] eqn:Hget.
    + rewrite (package_dataset_graph_present d cs Hget) in Hrun.
      apply bind_Err in Hrun as [Hrun | ([cs' gc] & _ & Hrun)].
      * unfold walk_children in Hrun.
        destruct (truthy cs); [|discriminate].
        apply (proj1 (_package_children_unsupported key cs)) in Hrun
          as (value & Hentry & Hu).
        exists value. split; [|done].
        apply dict_get_elem_of in Hget.
        by apply (entry_in_dict key value "children" cs d).
      * unfold _package_current_dataset in Hrun. simpl in Hrun.
        apply current_dataset_unsupported in Hrun as (value & Hentry & Hu).
        exists value. split; [|done].
        eapply entry_of_subdict; [|exact Hentry].
        intros kv Hkv. by apply (dict_delete_subseteq "children" d).
    + rewrite (package_dataset_graph_absent d Hget) in Hrun. discriminate.
Qed.
(** * Further properties of the encoder *)

(** ** Reading the parameters back *)

(** Generic dispatch touches the entries of its own key only. *)
Lemma is_update_other key update p k :
  is_update key update → k ≠ key → same_entries k (update p) p.
Proof.
  intros Hu Hk. unfold same_entries.
  destruct Hu; simpl; rewrite ?(lookup_insert_ne _ key k) by done; done.
Qed.

Lemma _package_parameter_other key v p p' k :
  _package_parameter key v p = Ok p' → k ≠ key → same_entries k p' p.
Proof.
  intros Hrun Hk.
  apply _package_parameter_Ok_update in Hrun as (update & _ & Hu & ->).
  by apply (is_update_other key).
Qed.

Lemma check_all_to_string_inv l strs :
  check_all to_string (map replace_None l) = Ok strs →
  forallb is_str_or_None l = true ∧ strs = map string_of l.
Proof.
  intros Hrun. destruct (forallb is_str_or_None l) eqn:Hl.
  - rewrite check_all_to_string_Ok in Hrun by done. split; congruence.
  - rewrite check_all_to_string_TypeError in Hrun by done. discriminate.
Qed.

Lemma _package_parameter_recorded key v p p' :
  _package_parameter key v p = Ok p' → recorded key v p p'.
Proof.
  intros Hrun. unfold recorded.
  destruct v as [|b|z|f|s|l|d]; simpl in Hrun.
  1,2,4,5: injection Hrun as <-; simpl; by rewrite lookup_insert_eq.
  - rewrite _package_parameter_VInt in Hrun.
    unfold set_mapInt, check_int32 in Hrun.
    destruct (in_int32 z); [|discriminate].
    injection Hrun as <-. simpl. by rewrite lookup_insert_eq.
  - rewrite _package_parameter_VList in Hrun.
    destruct (String.eqb key "operations"); [discriminate|].
    destruct l as [|x l]; [by injection Hrun as <-|].
    unfold extend_mapStrList in Hrun.
    apply bind_Ok in Hrun as (strs & Hstrs & Hrun). injection Hrun as <-.
    apply check_all_to_string_inv in Hstrs as [Hall ->].
    split; [done|]. simpl. by rewrite lookup_insert_eq.
  - discriminate.
Qed.

(** [recorded] looks at the entries of the key only. *)
Lemma recorded_same key v old old' new new' :
  same_entries key old' old → same_entries key new' new →
  recorded key v old new → recorded key v old' new'.
Proof.
  intros (Ho1 & Ho2 & Ho3 & Ho4 & Ho5) (Hn1 & Hn2 & Hn3 & Hn4 & Hn5).
  unfold recorded. destruct v as [|b|z|f|s|l|d]; try congruence.
  destruct l; [congruence|]. intros [Hall Hnew]. split; [done|]. congruence.
Qed.

Lemma same_entries_refl key p : same_entries key p p.
Proof. by unfold same_entries. Qed.

Lemma same_entries_trans key p q r :
  same_entries key p q → same_entries key q r → same_entries key p r.
Proof. unfold same_entries. intuition congruence. Qed.

Lemma package_parameters_other l : ∀ p p' k,
  package_parameters l p = Ok p' → k ∉ map fst l → same_entries k p' p.
Proof.
  unfold package_parameters.
  induction l as [|[k0 v0] l IH]; intros p p' k Hrun Hk; simpl in Hrun.
  - injection Hrun as <-. apply same_entries_refl.
  - apply bind_Ok in Hrun as (p1 & Hhead & Hrun). simpl in *.
    apply not_elem_of_cons in Hk as [Hk0 Hk].
    eapply same_entries_trans; [by eapply IH|].
    by eapply _package_parameter_other.
Qed.

Lemma package_parameters_recorded l : ∀ p p' key v,
  NoDup (map fst l) → package_parameters l p = Ok p' →
  (key, v) ∈ l → recorded key v p p'.
Proof.
  induction l as [|[k0 v0] l IH]; intros p p' key v Hnd Hrun Hin.
  - by apply elem_of_nil in Hin.
  - unfold package_parameters in Hrun. simpl in Hrun, Hnd.
    apply bind_Ok in Hrun as (p1 & Hhead & Hrun).
    apply NoDup_cons in Hnd as [Hk0 Hnd].
    apply elem_of_cons in Hin as [[= -> ->]|Hin].
    + apply _package_parameter_recorded in Hhead.
      eapply recorded_same; [apply same_entries_refl| |exact Hhead].
      by eapply package_parameters_other.
    + assert (key ≠ k0).
      { intros ->. apply Hk0. apply list_elem_of_fmap. by exists (k0, v). }
      eapply recorded_same;
        [|apply same_entries_refl|exact (IH _ _ _ _ Hnd Hrun Hin)].
      apply (_package_parameter_other _ _ _ _ key) in Hhead; [|done].
      destruct Hhead as (H1 & H2 & H3 & H4 & H5).
      unfold same_entries. by rewrite H1, H2, H3, H4, H5.
Qed.

Lemma for_each_cons {A S : Type} (body : A → S → result S) (a : A)
    (l : list A) (s : S) :
  for_each body (a :: l) s = s' ← body a s; for_each body l s'.
Proof. reflexivity. Qed.

(** The parameter block of a node is the generic dispatch of its generic
    entries, in their order. *)
Lemma current_dataset_parameter d : ∀ message message',
  for_each current_dataset_item d message = Ok message' →
  package_parameters (generic_items d) (parameter message)
    = Ok (parameter message').
Proof.
  unfold package_parameters.
  induction d as [|[key v] d IH]; intros message message' Hrun.
  - by injection Hrun as <-.
  - rewrite for_each_cons in Hrun.
    apply bind_Ok in Hrun as (m1 & Hitem & Hrun).
    apply IH in Hrun. unfold generic_items in *. simpl.
    unfold is_generic at 1. simpl.
    destruct (truthy v) eqn:Hv; simpl.
    + destruct (String.eqb_spec key "operations") as [->|Hop]; simpl.
      { apply current_dataset_item_frame in Hitem as (_ & Hsame & _).
        rewrite <- Hsame by auto. exact Hrun. }
      destruct (String.eqb_spec key "sampler") as [->|Hsa]; simpl.
      { apply current_dataset_item_frame in Hitem as (_ & Hsame & _).
        rewrite <- Hsame by auto. exact Hrun. }
      rewrite current_dataset_item_generic in Hitem by auto.
      apply bind_Ok in Hitem as (p1 & Hp & Hitem). injection Hitem as <-.
      rewrite Hp. exact Hrun.
    + rewrite current_dataset_item_generic in Hitem by auto.
      apply bind_Ok in Hitem as (p1 & Hp & Hitem). injection Hitem as <-.
      rewrite Hp. exact Hrun.
Qed.

Lemma generic_items_elem_of key v d :
  (key, v) ∈ generic_items d ↔
    (key, v) ∈ d ∧
    (truthy v = false ∨ (key ≠ "operations" ∧ key ≠ "sampler")).
Proof.
  unfold generic_items. rewrite !list_elem_of_In, filter_In.
  unfold is_generic. simpl.
  destruct (truthy v); simpl.
  - destruct (String.eqb_spec key "operations");
      destruct (String.eqb_spec key "sampler"); simpl; intuition congruence.
  - intuition.
Qed.

Lemma NoDup_keys_filter (f : string * value → bool) (d : dict) :
  NoDup (map fst d) → NoDup (map fst (List.filter f d)).
Proof.
  induction d as [|[k v] d IH]; simpl; [done|].
  intros Hnd. apply NoDup_cons in Hnd as [Hk Hnd].
  destruct (f (k, v)); simpl; [|by apply IH].
  apply NoDup_cons. split; [|by apply IH].
  intros Hin. apply Hk.
  apply list_elem_of_fmap in Hin as ([k' v'] & -> & Hin).
  apply list_elem_of_In, filter_In in Hin as [Hin _].
  apply list_elem_of_fmap. exists (k', v'). split; [done|].
  by apply list_elem_of_In.
Qed.

(** X1: every entry of a node that reaches generic dispatch can be read
    back from the parameter block of the encoded node, in the map of its
    type: a string, boolean, integer or double under its key, a null as the
    string "None", a non-empty list as the string list with the nulls
    replaced. *)
Theorem node_parameters_read_back (d : dict) (message message' : DatasetGraph)
    (key : string) (value : value) :
  dict_wf d →
  _package_current_dataset (VDict d) message = Ok message' →
  (key, value) ∈ d →
  truthy value = false ∨ (key ≠ "operations" ∧ key ≠ "sampler") →
  recorded key value (parameter message) (parameter message').
Proof.
  intros Hwf Hrun Hin Hgen.
  unfold _package_current_dataset in Hrun. simpl in Hrun.
  apply current_dataset_parameter in Hrun.
  eapply package_parameters_recorded; [|exact Hrun|].
  - by apply NoDup_keys_filter.
  - by apply generic_items_elem_of.
Qed.

(** ** The message of an operation, field by field *)

Lemma enhancement_operation_by_field od : ∀ o o',
  for_each enhancement_item od o = Ok o' →
  ∃ zs fs,
    package_parameters (scalar_items od) (operationParam o) =
      Ok (operationParam o') ∧
    check_all to_int32 (list_elements true od) = Ok zs ∧
    check_all to_float (list_elements false od) = Ok fs ∧
    size o' = size o ++ zs ∧
    weights o' = weights o ++ fs.
Proof.
  unfold package_parameters.
  induction od as [|[key v] od IH]; intros o o' Hrun.
  - injection Hrun as <-. exists [], []. by rewrite !app_nil_r.
  - rewrite for_each_cons in Hrun.
    apply bind_Ok in Hrun as (o1 & Hitem & Hrun).
    apply IH in Hrun as (zs2 & fs2 & Hp2 & Hzs2 & Hfs2 & Hs2 & Hw2).
    rewrite !(list_elements_cons _ (key, v) od).
    unfold scalar_items. simpl.
    destruct (isinstance_list v) eqn:Hv.
    + destruct v as [| | | | |l|]; try discriminate. simpl.
      rewrite enhancement_item_VList in Hitem.
      destruct (forallb isinstance_int l); simpl.
      * unfold extend_size in Hitem.
        apply bind_Ok in Hitem as (zs1 & Hzs1 & Hitem).
        injection Hitem as <-. simpl in *.
        exists (zs1 ++ zs2), fs2.
        rewrite (check_all_app_Ok _ _ _ _ _ Hzs1 Hzs2).
        rewrite Hs2, Hw2, app_assoc. done.
      * unfold extend_weights in Hitem.
        apply bind_Ok in Hitem as (fs1 & Hfs1 & Hitem).
        injection Hitem as <-. simpl in *.
        exists zs2, (fs1 ++ fs2).
        rewrite (check_all_app_Ok _ _ _ _ _ Hfs1 Hfs2).
        rewrite Hs2, Hw2, app_assoc. done.
    + rewrite enhancement_item_other in Hitem by done.
      apply bind_Ok in Hitem as (p1 & Hp1 & Hitem). injection Hitem as <-.
      cbn [negb]. rewrite for_each_cons. cbn [fst snd].
      rewrite Hp1. simpl in *.
      exists zs2, fs2.
      destruct v; try discriminate; simpl; done.
Qed.

(** X2: when an operation or sampler map is encoded, the message is made up
    field by field: the parameter block is the dispatch of the non-list
    entries of the map, in order; "size" has grown by the elements of the
    all-integer lists, as the field of 32-bit integers takes them, and
    "weights" by the elements of the other lists, as the single-precision
    field takes them. *)
Theorem operation_encoding_by_field (od : dict) (o o' : Operation) :
  _package_enhancement_operation (VDict od) o = Ok o' →
  ∃ p zs fs,
    package_parameters (scalar_items od) (operationParam o) = Ok p ∧
    check_all to_int32 (list_elements true od) = Ok zs ∧
    check_all to_float (list_elements false od) = Ok fs ∧
    o' = mkOperation p (size o ++ zs) (weights o ++ fs).
Proof.
  unfold _package_enhancement_operation. simpl. intros Hrun.
  apply enhancement_operation_by_field in Hrun
    as (zs & fs & Hp & Hzs & Hfs & Hs & Hw).
  exists (operationParam o'), zs, fs. split_and!; try done.
  destruct o' as [p' s' w']. simpl in *. by rewrite Hs, Hw.
Qed.

Lemma scalar_items_elem_of key v od :
  (key, v) ∈ scalar_items od ↔ (key, v) ∈ od ∧ isinstance_list v = false.
Proof.
  unfold scalar_items. rewrite !list_elem_of_In, filter_In. simpl.
  rewrite negb_true_iff. done.
Qed.

(** X3: every non-list entry of an operation or sampler map can be read
    back from the parameter block of the encoded operation, in the map of its
    type (a null as the string "None"). *)
Theorem operation_parameters_read_back (od : dict) (o o' : Operation)
    (key : string) (value : value) :
  dict_wf od →
  _package_enhancement_operation (VDict od) o = Ok o' →
  (key, value) ∈ od →
  isinstance_list value = false →
  recorded key value (operationParam o) (operationParam o').
Proof.
  intros Hwf Hrun Hin Hv.
  unfold _package_enhancement_operation in Hrun. simpl in Hrun.
  apply enhancement_operation_by_field in Hrun as (zs & fs & Hp & _).
  eapply package_parameters_recorded; [|exact Hp|].
  - by apply NoDup_keys_filter.
  - by apply scalar_items_elem_of.
Qed.
(** ** Where the entries of a parameter block come from *)

Lemma _package_parameter_new_key key v p p' k :
  _package_parameter key v p = Ok p' →
  k ∈ parameter_keys p' →
  k ∈ parameter_keys p ∨ (k = key ∧ v ≠ VList [] ∧ unsupported key v = false).
Proof.
  intros Hrun Hk.
  destruct (decide (k = key)) as [->|Hne].
  - assert (v = VList [] ∨ v ≠ VList []) as [->|Hv].
    { destruct v as [| | | | |[|x l]|]; (by left) || (by right). }
    + rewrite _package_parameter_VList in Hrun.
      destruct (String.eqb key "operations"); [discriminate|].
      injection Hrun as <-. by left.
    + right. split; [done|]. split; [done|].
      by eapply _package_parameter_Ok_supported.
  - left. apply _package_parameter_keys in Hrun. set_solver.
Qed.

Lemma package_parameters_new_key l : ∀ p p' k,
  package_parameters l p = Ok p' →
  k ∈ parameter_keys p' →
  k ∈ parameter_keys p ∨
  ∃ v, (k, v) ∈ l ∧ v ≠ VList [] ∧ unsupported k v = false.
Proof.
  unfold package_parameters.
  induction l as [|[k0 v0] l IH]; intros p p' k Hrun Hk.
  - injection Hrun as <-. by left.
  - rewrite for_each_cons in Hrun.
    apply bind_Ok in Hrun as (p1 & Hhead & Hrun). simpl in Hhead.
    destruct (IH _ _ _ Hrun Hk) as [Hk1 | (v & Hin & Hv)].
    + destruct (_package_parameter_new_key _ _ _ _ _ Hhead Hk1)
        as [Hp | (-> & Hv & Hu)]; [by left|].
      right. exists v0. split; [by left|done].
    + right. exists v. split; [by right|done].
Qed.

(** X4: every entry of the parameter block of the encoded root comes from
    an entry of the input: a key that has an entry in one of the five maps
    is a key of the root map whose value reached generic dispatch (it is
    falsy, or the key is neither "operations" nor "sampler"), is supported,
    and is not an empty list. *)
Theorem root_parameters_come_from_input (d : dict) (g : DatasetGraph)
    (key : string) :
  package_dataset_graph d = Ok g →
  ¬ no_entry key (parameter g) →
  ∃ value,
    (key, value) ∈ d ∧
    (truthy value = false ∨ (key ≠ "operations" ∧ key ≠ "sampler")) ∧
    value ≠ VList [] ∧ unsupported key value = false.
Proof.
  intros Hrun Hkey.
  destruct (dict_get "children" d) as [cs|] eqn:Hget.
  - rewrite (package_dataset_graph_present d cs Hget) in Hrun.
    apply bind_Ok in Hrun as ([cs' gc] & Hwalk & Hrun).
    apply walk_children_spec in Hwalk as (_ & nodes & -> & _).
    unfold _package_current_dataset in Hrun. simpl in Hrun.
    apply current_dataset_parameter in Hrun. simpl in Hrun.
    destruct (decide (key ∈ parameter_keys (parameter g))) as [Hin|Hout];
      [|by apply not_elem_of_parameter_keys in Hout].
    destruct (package_parameters_new_key _ _ _ _ Hrun Hin)
      as [Hempty | (v & Hv & Hnot & Hsup)].
    + exfalso. revert Hempty. apply not_elem_of_parameter_keys.
      apply no_entry_empty.
    + apply generic_items_elem_of in Hv as [Hv Hgen].
      exists v. split; [|done].
      by apply (dict_delete_subseteq "children").
  - rewrite (package_dataset_graph_absent d Hget) in Hrun.
    injection Hrun as <-. destruct Hkey. apply no_entry_empty.
Qed.

(** ** One map per key *)

Lemma entry_count_same key p q :
  same_entries key p q → entry_count key p = entry_count key q.
Proof.
  intros (H1 & H2 & H3 & H4 & H5). unfold entry_count.
  by rewrite H1, H2, H3, H4, H5.
Qed.

Lemma entry_count_no_entry key p : no_entry key p ↔ entry_count key p = 0.
Proof.
  unfold no_entry, entry_count. split.
  - intros (-> & -> & -> & -> & ->). done.
  - destruct (mapStr p !! key), (mapBool p !! key), (mapInt p !! key),
      (mapDouble p !! key), (mapStrList p !! key); simpl; intros; try lia;
      done.
Qed.

Lemma _package_parameter_entry_count key v p p' :
  _package_parameter key v p = Ok p' →
  no_entry key p → (entry_count key p' ≤ 1)%nat.
Proof.
  intros Hrun (H1 & H2 & H3 & H4 & H5). unfold entry_count.
  apply _package_parameter_Ok_update in Hrun as (update & _ & Hu & ->).
  destruct Hu; simpl; rewrite ?lookup_insert_eq;
    rewrite ?H1, ?H2, ?H3, ?H4, ?H5; simpl; lia.
Qed.

Lemma package_parameters_entry_count l : ∀ p p',
  NoDup (map fst l) →
  (∀ k, k ∈ map fst l → no_entry k p) →
  (∀ k, (entry_count k p ≤ 1)%nat) →
  package_parameters l p = Ok p' →
  ∀ k, (entry_count k p' ≤ 1)%nat.
Proof.
  unfold package_parameters.
  induction l as [|[k0 v0] l IH]; intros p p' Hnd Hfresh Hone Hrun.
  - by injection Hrun as <-.
  - rewrite for_each_cons in Hrun.
    apply bind_Ok in Hrun as (p1 & Hhead & Hrun). simpl in Hhead, Hnd.
    apply NoDup_cons in Hnd as [Hk0 Hnd].
    eapply IH; [exact Hnd| | |exact Hrun].
    + intros k Hk. apply entry_count_no_entry.
      assert (k ≠ k0) by (intros ->; done).
      rewrite (entry_count_same k p1 p)
        by by eapply _package_parameter_other.
      apply entry_count_no_entry, Hfresh. simpl. by right.
    + intros k. destruct (decide (k = k0)) as [->|Hne].
      * eapply _package_parameter_entry_count; [exact Hhead|].
        apply Hfresh. simpl. by left.
      * rewrite (entry_count_same k p1 p)
          by by eapply _package_parameter_other.
        apply Hone.
Qed.

Lemma dict_delete_wf key d : dict_wf d → dict_wf (dict_delete key d).
Proof.
  unfold dict_wf. induction d as [|[k v] d IH]; simpl; [done|].
  intros Hnd. apply NoDup_cons in Hnd as [Hk Hnd].
  destruct (String.eqb k key); [done|]. simpl.
  apply NoDup_cons. split; [|by apply IH].
  intros Hin. apply Hk.
  apply list_elem_of_fmap in Hin as ([k' v'] & -> & Hin).
  apply list_elem_of_fmap. exists (k', v'). split; [done|].
  by apply (dict_delete_subseteq key).
Qed.

Lemma node_entry_count d gc g :
  dict_wf d → parameter gc = empty_parameter →
  for_each current_dataset_item d gc = Ok g →
  ∀ key, (entry_count key (parameter g) ≤ 1)%nat.
Proof.
  intros Hwf Hempty Hrun.
  apply current_dataset_parameter in Hrun. rewrite Hempty in Hrun.
  eapply package_parameters_entry_count; [| | |exact Hrun].
  - by apply NoDup_keys_filter.
  - intros k _. apply no_entry_empty.
  - intros k. rewrite (proj1 (entry_count_no_entry k _) (no_entry_empty k)).
    lia.
Qed.

(** X5: in the encoded root and in every encoded child node, a key has an
    entry in at most one of the five parameter maps. *)
Theorem one_map_per_key :
  (∀ d g key,
     dict_wf d → package_dataset_graph d = Ok g →
     (entry_count key (parameter g) ≤ 1)%nat) ∧
  (∀ d node key,
     dict_wf d → encode_child (VDict d) = Ok node →
     (entry_count key (parameter node) ≤ 1)%nat).
Proof.
  split.
  - intros d g key Hwf Hrun.
    destruct (dict_get "children" d) as [cs|] eqn:Hget.
    + rewrite (package_dataset_graph_present d cs Hget) in Hrun.
      apply bind_Ok in Hrun as ([cs' gc] & Hwalk & Hrun).
      apply walk_children_spec in Hwalk as (_ & nodes & -> & _).
      unfold _package_current_dataset in Hrun. simpl in Hrun.
      refine (node_entry_count _ _ _ _ _ Hrun key); [|done].
      by apply dict_delete_wf.
    + rewrite (package_dataset_graph_absent d Hget) in Hrun.
      injection Hrun as <-. simpl.
      rewrite (proj1 (entry_count_no_entry key _) (no_entry_empty key)). lia.
  - intros d node key Hwf Hrun.
    apply encode_child_inv in Hrun
      as (d' & grandson & cs' & gc & [= <-] & Hget & Hwalk & Hrun).
    apply walk_children_spec in Hwalk as (_ & nodes & -> & _).
    refine (node_entry_count _ _ _ _ _ Hrun key); [|done].
    by apply dict_delete_wf.
Qed.

(** ** The order of the keys of a node *)

(** Two generic dispatches under different keys can be exchanged. *)
Lemma is_update_swap kx ky fx fy p :
  kx ≠ ky → is_update kx fx → is_update ky fy → fx (fy p) = fy (fx p).
Proof.
  intros Hne Hx Hy.
  destruct Hx, Hy;
    unfold set_mapStr, set_mapBool, insert_mapInt, set_mapDouble,
      append_mapStrList, id;
    cbn [mapStr mapBool mapInt mapDouble mapStrList];
    f_equal; rewrite ?lookup_insert_ne by done;
    try done; by apply insert_insert_ne.
Qed.

Lemma _package_parameter_swap kx vx ky vy p p2 :
  kx ≠ ky →
  (p1 ← _package_parameter kx vx p; _package_parameter ky vy p1) = Ok p2 →
  (p1 ← _package_parameter ky vy p; _package_parameter kx vx p1) = Ok p2.
Proof.
  intros Hne Hrun.
  apply bind_Ok in Hrun as (p1 & Hx & Hy).
  apply _package_parameter_Ok_update in Hx as (fx & Hfx & Hux & ->).
  apply _package_parameter_Ok_update in Hy as (fy & Hfy & Huy & ->).
  rewrite (_package_parameter_update ky), Hfy. cbn [mbind result_bind].
  rewrite (_package_parameter_update kx), Hfx. cbn [mbind result_bind].
  f_equal. by apply (is_update_swap kx ky).
Qed.

(** The loop of lines 73-77 appends the encodings of the operators. *)
Lemma package_operators_eq l : ∀ message,
  for_each package_operator l message =
    ops ← encode_operators l;
    Ok (mkDatasetGraph (children message) (parameter message)
          (operations message ++ ops) (sampler message)).
Proof.
  induction l as [|operator l IH]; intros message.
  - simpl. rewrite app_nil_r. by destruct message.
  - rewrite for_each_cons. cbn [encode_operators].
    assert (Hstep : package_operator operator message =
              o ← _package_enhancement_operation operator empty_operation;
              Ok (add_operation o message)) by reflexivity.
    rewrite Hstep. clear Hstep.
    destruct (_package_enhancement_operation operator empty_operation)
      as [o|e]; [|done].
    cbn [mbind result_bind]. rewrite IH.
    destruct (encode_operators l) as [ops|e]; [|done].
    simpl. by rewrite <- app_assoc.
Qed.

(** The three branches of lines 72-84. *)
Lemma current_dataset_item_eq key v message :
  current_dataset_item (key, v) message =
    if truthy v && String.eqb key "operations" then
      l ← iter v; ops ← encode_operators l;
      Ok (mkDatasetGraph (children message) (parameter message)
            (operations message ++ ops) (sampler message))
    else if truthy v && String.eqb key "sampler" then
      s ← _package_enhancement_operation v (sampler message);
      Ok (with_sampler s message)
    else
      p ← _package_parameter key v (parameter message);
      Ok (with_parameter p message).
Proof.
  simpl. destruct (truthy v && String.eqb key "operations"); [|done].
  destruct (iter v) as [l|e]; [|done]. simpl. apply package_operators_eq.
Qed.

Ltac invert_binds :=
  repeat match goal with
    | H : (_ ≫= _) = Ok _ |- _ =>
        let a := fresh "a" in
        let Ha := fresh "Ha" in
        apply bind_Ok in H as (a & Ha & H)
    | H : Ok _ = Ok _ |- _ => injection H as <-
    end;
  cbn [children parameter operations sampler with_sampler with_parameter]
    in *.

Ltac replay_binds :=
  repeat match goal with
    | H : ?t = Ok _ |- context [?t] =>
        rewrite H;
        cbn [mbind result_bind children parameter operations sampler
               with_sampler with_parameter]
    end.

(** Two turns of the loop of [_package_current_dataset] for different keys
    can be exchanged. *)
Lemma current_dataset_item_swap kx vx ky vy message message' :
  kx ≠ ky →
  (m ← current_dataset_item (kx, vx) message;
   current_dataset_item (ky, vy) m) = Ok message' →
  (m ← current_dataset_item (ky, vy) message;
   current_dataset_item (kx, vx) m) = Ok message'.
Proof.
  intros Hne Hrun.
  apply bind_Ok in Hrun as (m1 & Hx & Hy).
  rewrite current_dataset_item_eq in Hx, Hy.
  rewrite (current_dataset_item_eq ky vy message).
  destruct (truthy vx && String.eqb kx "operations") eqn:Exo;
    [|destruct (truthy vx && String.eqb kx "sampler") eqn:Exs];
    (destruct (truthy vy && String.eqb ky "operations") eqn:Eyo;
     [|destruct (truthy vy && String.eqb ky "sampler") eqn:Eys]).
  1: { apply andb_true_iff in Exo as [_ Exo], Eyo as [_ Eyo].
       apply String.eqb_eq in Exo, Eyo. congruence. }
  4: { apply andb_true_iff in Exs as [_ Exs], Eys as [_ Eys].
       apply String.eqb_eq in Exs, Eys. congruence. }
  7: { invert_binds.
       match goal with
       | H1 : _package_parameter kx vx (parameter message) = Ok ?q,
         H2 : _package_parameter ky vy ?q = Ok ?r |- _ =>
           assert (Hswap :
             (p1 ← _package_parameter ky vy (parameter message);
              _package_parameter kx vx p1) = Ok r)
             by (apply _package_parameter_swap; [done|]; by rewrite H1);
           clear H1 H2
       end.
       apply bind_Ok in Hswap as (p1 & Hp1 & Hp2).
       replay_binds.
       rewrite current_dataset_item_eq, Exo, Exs.
       cbn [children parameter operations sampler with_sampler
              with_parameter].
       replay_binds. done. }
  all: invert_binds; replay_binds;
    rewrite current_dataset_item_eq, ?Exo, ?Exs;
    cbn [children parameter operations sampler with_sampler with_parameter];
    replay_binds; done.
Qed.

Lemma current_dataset_permutation d1 d2 :
  d1 ≡ₚ d2 → NoDup (map fst d1) →
  ∀ message message',
    for_each current_dataset_item d1 message = Ok message' →
    for_each current_dataset_item d2 message = Ok message'.
Proof.
  induction 1 as [|x l l' Hperm IH|[kx vx] [ky vy] l|l l' l'' H1 IH1 H2 IH2];
    intros Hnd message message' Hrun.
  - done.
  - rewrite for_each_cons in Hrun. rewrite for_each_cons.
    apply bind_Ok in Hrun as (m1 & Hx & Hrun).
    rewrite Hx. cbn [mbind result_bind]. apply IH; [|done].
    simpl in Hnd. by apply NoDup_cons in Hnd as [_ Hnd].
  - simpl in Hnd. apply NoDup_cons in Hnd as [Hne _].
    apply not_elem_of_cons in Hne as [Hne _].
    rewrite for_each_cons in Hrun.
    apply bind_Ok in Hrun as (m1 & Hy & Hrun).
    rewrite for_each_cons in Hrun.
    apply bind_Ok in Hrun as (m2 & Hx & Hrun).
    rewrite (for_each_cons _ (kx, vx)).
    assert (Hswap :
      (m ← current_dataset_item (kx, vx) message;
       current_dataset_item (ky, vy) m) = Ok m2).
    { apply current_dataset_item_swap; [done|]. by rewrite Hy. }
    apply bind_Ok in Hswap as (m1' & Hx' & Hy').
    rewrite Hx'. cbn [mbind result_bind].
    rewrite for_each_cons, Hy'. exact Hrun.
  - apply IH2; [|by apply IH1].
    by rewrite <- H1.
Qed.

Lemma dict_get_Some_wf key v d :
  dict_wf d → (key, v) ∈ d → dict_get key d = Some v.
Proof.
  unfold dict_wf. induction d as [|[k w] d IH]; intros Hnd Hin.
  - by apply elem_of_nil in Hin.
  - simpl in *. apply NoDup_cons in Hnd as [Hk Hnd].
    apply elem_of_cons in Hin as [[= -> ->]|Hin].
    + by rewrite String.eqb_refl.
    + destruct (String.eqb_spec k key) as [->|_]; [|by apply IH].
      destruct Hk. apply list_elem_of_fmap. by exists (key, v).
Qed.

Lemma dict_get_None key d : dict_get key d = None ↔ key ∉ map fst d.
Proof.
  induction d as [|[k w] d IH]; simpl.
  - split; [intros _; apply not_elem_of_nil|done].
  - rewrite not_elem_of_cons.
    destruct (String.eqb_spec k key) as [->|Hne].
    + split; [discriminate|]. intros [? _]. done.
    + rewrite IH. split; [|tauto]. intros H. split; [congruence|done].
Qed.

Lemma dict_get_permutation key d1 d2 :
  dict_wf d1 → d1 ≡ₚ d2 → dict_get key d1 = dict_get key d2.
Proof.
  intros Hwf Hperm.
  assert (Hwf2 : dict_wf d2) by (unfold dict_wf in *; by rewrite <- Hperm).
  destruct (dict_get key d1) as [v|] eqn:Hget.
  - symmetry. apply dict_get_Some_wf; [done|].
    rewrite <- Hperm. by apply dict_get_elem_of.
  - symmetry. apply dict_get_None. rewrite <- Hperm.
    by apply dict_get_None.
Qed.

Lemma dict_delete_fresh key d : key ∉ map fst d → dict_delete key d = d.
Proof.
  induction d as [|[k w] d IH]; simpl; [done|].
  rewrite not_elem_of_cons. intros [Hne Hk].
  destruct (String.eqb_spec k key) as [->|_]; [done|]. by rewrite IH.
Qed.

Lemma dict_delete_permutation key d1 d2 :
  d1 ≡ₚ d2 → NoDup (map fst d1) →
  dict_delete key d1 ≡ₚ dict_delete key d2.
Proof.
  induction 1 as [|[k v] l l' Hperm IH|[kx vx] [ky vy] l|l l' l'' H1 IH1 H2 IH2];
    intros Hnd.
  - done.
  - simpl in *. apply NoDup_cons in Hnd as [_ Hnd].
    destruct (String.eqb k key); [done|]. by rewrite IH.
  - simpl in *. apply NoDup_cons in Hnd as [Hne _].
    apply not_elem_of_cons in Hne as [Hne _].
    destruct (String.eqb_spec ky key) as [->|Hy],
      (String.eqb_spec kx key) as [->|Hx]; try done.
    apply perm_swap.
  - etrans; [by apply IH1|]. apply IH2. by rewrite <- H1.
Qed.

(** X6: the encoding of a node does not depend on the order of its keys:
    when the encoding of a node succeeds, the encoding of the same entries
    in any other order succeeds with the same message; this holds for
    [_package_current_dataset] from any message and for the root as a
    whole. *)
Theorem key_order_is_irrelevant (d1 d2 : dict) :
  dict_wf d1 → d1 ≡ₚ d2 →
  (∀ message message',
     _package_current_dataset (VDict d1) message = Ok message' →
     _package_current_dataset (VDict d2) message = Ok message') ∧
  (∀ g, package_dataset_graph d1 = Ok g → package_dataset_graph d2 = Ok g).
Proof.
  intros Hwf Hperm. split.
  - intros message message'. unfold _package_current_dataset. simpl.
    by apply current_dataset_permutation.
  - intros g Hrun.
    pose proof (dict_get_permutation "children" d1 d2 Hwf Hperm) as Hget.
    destruct (dict_get "children" d1) as [cs|] eqn:Hget1.
    + rewrite (package_dataset_graph_present d1 cs Hget1) in Hrun.
      rewrite (package_dataset_graph_present d2 cs) by done.
      apply bind_Ok in Hrun as ([cs' gc] & Hwalk & Hrun).
      rewrite Hwalk. simpl.
      unfold _package_current_dataset in *. simpl in *.
      eapply current_dataset_permutation; [| |exact Hrun].
      * by apply dict_delete_permutation.
      * by apply dict_delete_wf.
    + rewrite (package_dataset_graph_absent d1 Hget1) in Hrun.
      by rewrite (package_dataset_graph_absent d2).
Qed.

(** ** The inputs the encoder accepts *)

(** A loop that succeeds has succeeded at every turn. *)
Lemma for_each_Ok_forallb {A S : Type} (ok : A → bool)
    (body : A → S → result S) (l : list A) :
  (∀ a s s', body a s = Ok s' → ok a = true) →
  ∀ s s', for_each body l s = Ok s' → forallb ok l = true.
Proof.
  intros Hbody. induction l as [|a l IH]; intros s s' Hrun; [done|].
  rewrite for_each_cons in Hrun.
  apply bind_Ok in Hrun as (s1 & Ha & Hrun).
  simpl. rewrite (Hbody _ _ _ Ha). simpl. by eapply IH.
Qed.

Lemma check_all_Ok_forallb {A B : Type} (ok : A → bool)
    (check : A → result B) (l : list A) :
  (∀ a b, check a = Ok b → ok a = true) →
  ∀ bs, check_all check l = Ok bs → forallb ok l = true.
Proof.
  intros Hcheck. induction l as [|a l IH]; intros bs Hrun; [done|].
  apply check_all_cons_Ok in Hrun as (b & bs' & Ha & Hl & _).
  simpl. rewrite (Hcheck _ _ Ha). simpl. by eapply IH.
Qed.

Lemma _package_parameter_Ok_ok key v p p' :
  _package_parameter key v p = Ok p' → parameter_ok key v = true.
Proof.
  destruct v as [|b|z|f|s|l|d]; try done.
  - rewrite _package_parameter_VInt. unfold set_mapInt, check_int32. simpl.
    by destruct (in_int32 z).
  - rewrite _package_parameter_VList. simpl.
    destruct (String.eqb key "operations"); [discriminate|]. simpl.
    destruct l as [|x l]; [done|].
    unfold extend_mapStrList. intros Hrun.
    apply bind_Ok in Hrun as (strs & Hstrs & _).
    by apply check_all_to_string_inv in Hstrs as [Hall _].
Qed.

Lemma to_int32_Ok_ok v z : to_int32 v = Ok z → size_ok v = true.
Proof.
  destruct v as [|b|z'|f|s|l|d]; simpl; try discriminate.
  - by destruct bool_as_int32.
  - unfold check_int32. by destruct (in_int32 z').
Qed.

Lemma to_float_Ok_ok v f : to_float v = Ok f → weight_ok v = true.
Proof.
  destruct v as [|b|z|f'|s|l|d]; simpl; try discriminate; try done.
  - by destruct bool_as_float.
  - by destruct (float_of_int z).
Qed.

Lemma enhancement_item_Ok_ok kv o o' :
  enhancement_item kv o = Ok o' → operation_item_ok kv = true.
Proof.
  destruct kv as [key v]. unfold operation_item_ok.
  destruct (isinstance_list v) eqn:Hv.
  - destruct v as [| | | | |l|]; try discriminate.
    rewrite enhancement_item_VList. simpl.
    destruct (forallb isinstance_int l); intros Hrun.
    + unfold extend_size in Hrun.
      apply bind_Ok in Hrun as (zs & Hzs & _).
      eapply check_all_Ok_forallb; [|exact Hzs]. apply to_int32_Ok_ok.
    + unfold extend_weights in Hrun.
      apply bind_Ok in Hrun as (fs & Hfs & _).
      eapply check_all_Ok_forallb; [|exact Hfs]. apply to_float_Ok_ok.
  - rewrite enhancement_item_other by done. intros Hrun.
    apply bind_Ok in Hrun as (p & Hp & _).
    apply _package_parameter_Ok_ok in Hp.
    destruct v; try discriminate; done.
Qed.

Lemma enhancement_operation_Ok_ok v o o' :
  _package_enhancement_operation v o = Ok o' → operation_ok v = true.
Proof.
  destruct v as [| | | | | |od]; try discriminate.
  unfold _package_enhancement_operation, operation_ok. simpl.
  apply for_each_Ok_forallb. apply enhancement_item_Ok_ok.
Qed.

Lemma encode_operators_Ok_ok l : ∀ ops,
  encode_operators l = Ok ops → forallb operation_ok l = true.
Proof.
  induction l as [|operator l IH]; intros ops Hrun; [done|].
  simpl in Hrun. apply bind_Ok in Hrun as (o & Ho & Hrun).
  apply bind_Ok in Hrun as (os & Hos & _).
  simpl. rewrite (enhancement_operation_Ok_ok _ _ _ Ho). simpl.
  by eapply IH.
Qed.

Lemma current_dataset_item_Ok_ok kv message message' :
  current_dataset_item kv message = Ok message' → item_ok kv = true.
Proof.
  destruct kv as [key v]. rewrite current_dataset_item_eq.
  unfold item_ok. simpl.
  destruct (truthy v && String.eqb key "operations") eqn:Hop;
    [|destruct (truthy v && String.eqb key "sampler")].
  - apply andb_true_iff in Hop as [Hv _]. intros Hrun.
    apply bind_Ok in Hrun as (l & Hiter & Hrun).
    apply bind_Ok in Hrun as (ops & Hops & _).
    destruct v as [| | | |s|l'|d]; try discriminate.
    + injection Hiter as <-. destruct s as [|c s]; discriminate.
    + injection Hiter as <-. by eapply encode_operators_Ok_ok.
    + injection Hiter as <-. destruct d as [|[k w] d]; discriminate.
  - intros Hrun. apply bind_Ok in Hrun as (s & Hs & _).
    by eapply enhancement_operation_Ok_ok.
  - intros Hrun. apply bind_Ok in Hrun as (p & Hp & _).
    by eapply _package_parameter_Ok_ok.
Qed.

Lemma current_dataset_Ok_ok d message message' :
  for_each current_dataset_item d message = Ok message' → node_ok d = true.
Proof. apply for_each_Ok_forallb. apply current_dataset_item_Ok_ok. Qed.

(** X7: when [_package_current_dataset] encodes a node, every entry of the
    node is acceptable: a truthy "operations" is a list of acceptable
    operations, a truthy "sampler" is an acceptable operation (a map whose
    lists hold what "size" or "weights" take and whose other values generic
    dispatch takes), and any other entry has a value generic dispatch takes
    (no map, an integer of 32 bits, a list of strings and nulls that is not
    under the key "operations", so that an empty "operations" list is
    rejected). *)
Theorem encoded_node_is_acceptable (d : dict) (message message' : DatasetGraph) :
  _package_current_dataset (VDict d) message = Ok message' →
  forallb item_ok d = true.
Proof.
  unfold _package_current_dataset. simpl.
  apply current_dataset_Ok_ok.
Qed.

Lemma children_ok_VList l :
  children_ok (VList l) = forallb child_ok l.
Proof.
  simpl. induction l as [|child l IH]; [done|].
  simpl. rewrite IH. f_equal.
  unfold child_ok. f_equal.
  destruct child as [| | | | | |d]; try done.
  f_equal.
  induction d as [|[k v] d IHd]; [done|].
  simpl. destruct (String.eqb k "children"); [done|]. exact IHd.
Qed.

Lemma package_plain_children_Ok_falsy l message message' :
  package_plain_children l message = Ok message' →
  forallb (λ child, negb (truthy child)) l = true.
Proof.
  unfold package_plain_children.
  apply for_each_Ok_forallb. intros child m m' Hrun.
  rewrite negb_true_iff.
  apply fmap_Ok in Hrun as ([c m1] & Hrun & _).
  by apply package_child_None in Hrun as (Ht & _).
Qed.

Lemma characters_falsy s :
  forallb (λ child, negb (truthy child)) (characters s) = String.eqb s "".
Proof. by destruct s. Qed.

Lemma keys_falsy (d : dict) :
  forallb (λ child, negb (truthy child)) (map (λ kv, VStr (fst kv)) d) =
    forallb (λ kv, String.eqb (fst kv) "") d.
Proof.
  induction d as [|[k v] d IH]; [done|].
  simpl. rewrite IH. by rewrite negb_involutive.
Qed.

(** The walk of lines 41-42 and 58-59. *)
Lemma walk_Ok_ok cs message r :
  (∀ m r', _package_children cs m = Ok r' → children_ok cs = true) →
  walk_children cs message = Ok r →
  negb (truthy cs) || children_ok cs = true.
Proof.
  intros Hcs. unfold walk_children. destruct (truthy cs); simpl; [|done].
  apply Hcs.
Qed.

Lemma encode_child_walk child :
  encode_child child =
    match child with
    | VDict d =>
        match dict_get "children" d with
        | Some grandson =>
            '(_, m) ← walk_children grandson empty_graph;
            _package_current_dataset (VDict (dict_delete "children" d)) m
        | None => Err (KeyError "children")
        end
    | VList _ => Err TypeError
    | _ => Err AttributeError
    end.
Proof.
  destruct child as [| | | | | |d]; try done.
  unfold encode_child, dict_pop, walk_children.
  destruct (dict_get "children" d) as [grandson|]; [|done]. simpl.
  destruct (truthy grandson); [|done].
  by destruct (_package_children grandson empty_graph) as [[cs' m]|e].
Qed.

Lemma package_child_Ok_ok child message r :
  (∀ d grandson,
     child = VDict d → dict_get "children" d = Some grandson →
     ∀ m r', _package_children grandson m = Ok r' →
             children_ok grandson = true) →
  package_child (pop_children child) child message = Ok r →
  child_ok child = true.
Proof.
  intros IH. unfold child_ok.
  destruct (truthy child) eqn:Ht; simpl; [|done].
  rewrite package_child_truthy by done. intros Hrun.
  apply bind_Ok in Hrun as (node & Hnode & _).
  rewrite encode_child_walk in Hnode.
  destruct child as [| | | | | |d]; try discriminate.
  destruct (dict_get "children" d) as [grandson|] eqn:Hget; [|discriminate].
  apply bind_Ok in Hnode as ([cs' m] & Hwalk & Hnode).
  apply andb_true_iff. split.
  - eapply walk_Ok_ok; [|exact Hwalk]. by apply (IH d).
  - unfold _package_current_dataset in Hnode. simpl in Hnode.
    by eapply current_dataset_Ok_ok.
Qed.

Lemma children_loop_Ok_ok l :
  Forall (λ child,
     ∀ d grandson,
       child = VDict d → dict_get "children" d = Some grandson →
       ∀ m r', _package_children grandson m = Ok r' →
               children_ok grandson = true) l →
  ∀ message r,
    children_loop l message = Ok r → forallb child_ok l = true.
Proof.
  induction 1 as [|child l Hchild Hl IH]; intros message r Hrun; [done|].
  simpl in Hrun.
  apply bind_Ok in Hrun as ([c m1] & Hc & Hrun).
  apply bind_Ok in Hrun as ([rest m2] & Hrest & _).
  simpl. rewrite (package_child_Ok_ok child message _ Hchild Hc). simpl.
  by eapply IH.
Qed.

Lemma _package_children_Ok_ok cs :
  (∀ message r,
     _package_children cs message = Ok r → children_ok cs = true) ∧
  (∀ d grandson,
     cs = VDict d → dict_get "children" d = Some grandson →
     ∀ message r,
       _package_children grandson message = Ok r →
       children_ok grandson = true).
Proof.
  induction cs as [| | | |s|l IH|d IH] using value_nested_ind;
    try (split; [intros; discriminate | intros; discriminate]).
  - split; [|intros; discriminate]. intros message r.
    rewrite _package_children_not_list by done. simpl. intros Hrun.
    apply bind_Ok in Hrun as (m & Hm & _).
    rewrite <- characters_falsy.
    by eapply package_plain_children_Ok_falsy.
  - split; [|intros; discriminate]. intros message r.
    rewrite _package_children_VList, children_ok_VList. intros Hrun.
    apply bind_Ok in Hrun as (r1 & Hr1 & _).
    eapply children_loop_Ok_ok; [|exact Hr1].
    eapply Forall_impl; [exact IH|]. intros child [_ Hchild]. exact Hchild.
  - split.
    + intros message r. rewrite _package_children_not_list by done. simpl.
      intros Hrun. apply bind_Ok in Hrun as (m & Hm & _).
      rewrite <- keys_falsy.
      by eapply package_plain_children_Ok_falsy.
    + intros d' grandson [= <-] Hget.
      apply dict_get_elem_of in Hget.
      rewrite Forall_forall in IH.
      exact (proj1 (IH _ Hget)).
Qed.

(** X8: when [package_dataset_graph] returns a message, the input is one
    [accepted] describes: the root has no "children" key; or its "children"
    value is falsy or a value the walk takes (every non-empty child is a map
    with a "children" key, acceptable in the same way), and the remaining
    entries are those of an acceptable node. *)
Theorem encoded_input_is_accepted (dataset_dict : dict) (g : DatasetGraph) :
  package_dataset_graph dataset_dict = Ok g →
  accepted dataset_dict = true.
Proof.
  unfold accepted.
  destruct (dict_get "children" dataset_dict) as [cs|] eqn:Hget; [|done].
  rewrite (package_dataset_graph_present _ cs Hget). intros Hrun.
  apply bind_Ok in Hrun as ([cs' gc] & Hwalk & Hrun).
  apply andb_true_iff. split.
  - eapply walk_Ok_ok; [|exact Hwalk].
    apply (proj1 (_package_children_Ok_ok cs)).
  - unfold _package_current_dataset in Hrun. simpl in Hrun.
    by eapply current_dataset_Ok_ok.
Qed.
(** ** The sampler of a node *)

Lemma for_each_app {A S : Type} (body : A → S → result S) (l1 l2 : list A)
    (s : S) :
  for_each body (l1 ++ l2) s = s' ← for_each body l1 s; for_each body l2 s'.
Proof.
  revert s. induction l1 as [|a l1 IH]; intros s; [done|].
  rewrite <- app_comm_cons, !for_each_cons.
  destruct (body a s) as [s'|e]; [|done].
  cbn [mbind result_bind]. apply IH.
Qed.

(** The entries that are no truthy "sampler" leave the sampler alone. *)
Lemma current_dataset_sampler_kept d : ∀ message message',
  (∀ v, ("sampler", v) ∈ d → truthy v = false) →
  for_each current_dataset_item d message = Ok message' →
  sampler message' = sampler message.
Proof.
  induction d as [|[key v] d IH]; intros message message' Hno Hrun.
  - by injection Hrun as <-.
  - rewrite for_each_cons in Hrun.
    apply bind_Ok in Hrun as (m1 & Hitem & Hrun).
    rewrite (IH m1 message'); [| |done].
    + rewrite current_dataset_item_eq in Hitem.
      destruct (truthy v && String.eqb key "operations");
        [|destruct (truthy v && String.eqb key "sampler") eqn:Hs].
      * invert_binds. done.
      * apply andb_true_iff in Hs as [Hv Hk].
        apply String.eqb_eq in Hk as ->.
        rewrite Hno in Hv by by left. discriminate.
      * invert_binds. done.
    + intros w Hin. apply Hno. by right.
Qed.

(** X9: the sampler of an encoded node is the encoding of the value under
    "sampler" when that value is truthy, written over the sampler the
    message had; a node without a truthy "sampler" entry leaves the sampler
    of the message as it was. *)
Theorem sampler_of_node (d : dict) (message message' : DatasetGraph) :
  _package_current_dataset (VDict d) message = Ok message' →
  (∀ v,
     dict_wf d → ("sampler", v) ∈ d → truthy v = true →
     _package_enhancement_operation v (sampler message)
       = Ok (sampler message')) ∧
  ((∀ v, ("sampler", v) ∈ d → truthy v = false) →
   sampler message' = sampler message).
Proof.
  unfold _package_current_dataset. simpl. intros Hrun. split.
  - intros v Hwf Hin Hv.
    apply list_elem_of_split in Hin as (d1 & d2 & ->).
    unfold dict_wf in Hwf. rewrite map_app in Hwf. simpl in Hwf.
    apply NoDup_app in Hwf as (_ & Hd1 & Hd2).
    apply NoDup_cons in Hd2 as [Hd2 _].
    rewrite for_each_app in Hrun.
    apply bind_Ok in Hrun as (m1 & Hrun1 & Hrun).
    rewrite for_each_cons in Hrun.
    apply bind_Ok in Hrun as (m2 & Hitem & Hrun2).
    apply current_dataset_sampler_kept in Hrun1, Hrun2.
    + rewrite Hrun2, <- Hrun1.
      rewrite current_dataset_item_eq, Hv in Hitem. simpl in Hitem.
      apply bind_Ok in Hitem as (s & Hs & Hitem).
      injection Hitem as <-. exact Hs.
    + intros w Hw. destruct Hd2. apply list_elem_of_fmap.
      by exists ("sampler", w).
    + intros w Hw. destruct (Hd1 "sampler").
      * apply list_elem_of_fmap. by exists ("sampler", w).
      * simpl. by left.
  - intros Hno. by eapply current_dataset_sampler_kept.
Qed.

(** ** What the two loops leave alone *)

Lemma encoded_operations_Forall2 l ops :
  Forall2 encoded_operation l ops → encode_operators l = Ok ops.
Proof.
  induction 1 as [|operator o l ops Ho Hl IH]; [done|].
  simpl. unfold encoded_operation in Ho. rewrite Ho. simpl.
  by rewrite IH.
Qed.

(** X10: the walk over the children only appends child messages, one per
    truthy element: the children the message already had stay in front, and
    the parameters, operations and sampler are untouched.  The encoding of a
    node's own entries leaves the children untouched and only appends to the
    operations, the encodings of the elements of its truthy "operations"
    values in their order. *)
Theorem loops_only_append :
  (∀ cs message cs' message',
     _package_children cs message = Ok (cs', message') →
     parameter message' = parameter message ∧
     operations message' = operations message ∧
     sampler message' = sampler message ∧
     ∃ nodes,
       children message' = children message ++ nodes ∧
       length nodes = length (truthy_children cs)) ∧
  (∀ d message message',
     _package_current_dataset (VDict d) message = Ok message' →
     children message' = children message ∧
     ∃ ops,
       operations message' = operations message ++ ops ∧
       encode_operators (operators_of d) = Ok ops).
Proof.
  split.
  - intros cs message cs' message' Hrun.
    apply _package_children_spec in Hrun as (_ & nodes & -> & Hnodes).
    simpl. split_and!; try done.
    exists nodes. split; [done|].
    symmetry. by eapply Forall2_length.
  - intros d message message' Hrun.
    unfold _package_current_dataset in Hrun. simpl in Hrun.
    apply current_dataset_operations in Hrun as (Hc & ops & Hops & Hall).
    split; [done|]. exists ops. split; [done|].
    by apply encoded_operations_Forall2.
Qed.

(** ** A second walk over the same children *)

Lemma dict_delete_not_in key d :
  dict_wf d → key ∉ map fst (dict_delete key d).
Proof.
  unfold dict_wf. induction d as [|[k v] d IH]; simpl.
  - intros _. apply not_elem_of_nil.
  - intros Hnd. apply NoDup_cons in Hnd as [Hk Hnd].
    destruct (String.eqb_spec k key) as [->|Hne]; [done|].
    simpl. apply not_elem_of_cons. split; [congruence|by apply IH].
Qed.

Lemma children_loop_again l : ∀ message l' message',
  (∀ d, VDict d ∈ l → dict_wf d) →
  children_loop l message = Ok (l', message') →
  (∃ child, child ∈ l ∧ truthy (child_after child) = true) →
  ∀ m, children_loop (map child_after l) m = Err (KeyError "children").
Proof.
  induction l as [|child rest IH];
    intros message l' message' Hwf Hrun (c & Hin & Hc) m.
  - by apply elem_of_nil in Hin.
  - simpl in Hrun.
    apply bind_Ok in Hrun as ([child' m1] & Hchild & Hrun).
    apply bind_Ok in Hrun as ([rest' m2] & Hrest & _).
    simpl.
    destruct (truthy (child_after child)) eqn:Hafter.
    + destruct (truthy child) eqn:Ht;
        [|by rewrite child_after_falsy, Ht in Hafter].
      rewrite package_child_truthy in Hchild by done.
      apply bind_Ok in Hchild as (node & Hnode & _).
      apply encode_child_inv in Hnode as (d & gs & _ & _ & -> & _).
      assert (Hnone : dict_get "children" (dict_delete "children" d) = None).
      { apply dict_get_None, dict_delete_not_in, Hwf. by left. }
      simpl in *. rewrite Hnone. unfold package_child. cbn [truthy].
      by rewrite Hafter.
    + rewrite package_child_falsy by done. simpl.
      rewrite (IH m1 rest' m2); [done| |done|].
      * intros d Hd. apply Hwf. by right.
      * apply elem_of_cons in Hin as [->|Hin]; [congruence|].
        by exists c.
Qed.

(** X11: the walk cannot be repeated on the list it has worked on: after
    a successful walk, a second walk over the same list raises [KeyError]
    as soon as one child still has an entry once its "children" entry is
    gone. *)
Theorem second_walk_raises (l : list value) (message : DatasetGraph)
    (cs' : value) (message' : DatasetGraph) :
  (∀ d, VDict d ∈ l → dict_wf d) →
  _package_children (VList l) message = Ok (cs', message') →
  (∃ child, child ∈ l ∧ truthy (child_after child) = true) →
  ∀ m, _package_children cs' m = Err (KeyError "children").
Proof.
  intros Hwf Hrun Hsome m.
  rewrite _package_children_VList in Hrun.
  apply bind_Ok in Hrun as ([l' m1] & Hloop & Hrun).
  injection Hrun as <- <-.
  pose proof (children_loop_spec _ _ _ _ Hloop) as (-> & _).
  rewrite _package_children_VList.
  by rewrite (children_loop_again l message _ _ Hwf Hloop Hsome m).
Qed.

(** ** Which exception a node raises *)

(** The first exception of a loop is raised by the first turn that fails,
    after the turns before it succeeded. *)
Lemma for_each_Err_split {A S : Type} (body : A → S → result S) (l : list A) :
  ∀ s e,
    for_each body l s = Err e →
    ∃ l1 a l2 s1,
      l = l1 ++ a :: l2 ∧ for_each body l1 s = Ok s1 ∧ body a s1 = Err e.
Proof.
  induction l as [|a l IH]; intros s e; [discriminate|].
  rewrite for_each_cons. intros Hrun.
  apply bind_Err in Hrun as [Ha | (s1 & Ha & Hrun)].
  - exists [], a, l, s. done.
  - apply IH in Hrun as (l1 & b & l2 & s2 & -> & Hl1 & Hb).
    exists (a :: l1), b, l2, s2. split; [done|]. split; [|done].
    rewrite for_each_cons, Ha. exact Hl1.
Qed.

Lemma same_outcome_bind {A A' B B' : Type} (m : result A) (m' : result A')
    (f : A → result B) (f' : A' → result B') :
  same_outcome m m' →
  (∀ a a', same_outcome (f a) (f' a')) →
  same_outcome (m ≫= f) (m' ≫= f').
Proof.
  destruct m as [a|e], m' as [a'|e']; simpl; intros Hm Hf;
    [apply Hf|done|done|done].
Qed.

Lemma same_outcome_refl {A : Type} (r : result A) : same_outcome r r.
Proof. by destruct r. Qed.

Lemma same_outcome_Err {A B : Type} (r : result A) (r' : result B) e :
  same_outcome r r' → r = Err e → r' = Err e.
Proof.
  destruct r as [a|e0], r' as [a'|e']; simpl; intros Hr He;
    [discriminate|discriminate|done|congruence].
Qed.

(** A loop whose turns end alike from any two states ends alike from any
    two states. *)
Lemma for_each_same_outcome {A S : Type} (body : A → S → result S)
    (l : list A) :
  (∀ a s s', same_outcome (body a s) (body a s')) →
  ∀ s s', same_outcome (for_each body l s) (for_each body l s').
Proof.
  intros Hbody. induction l as [|a l IH]; intros s s'; [done|].
  rewrite !for_each_cons. apply same_outcome_bind; [apply Hbody|].
  intros t t'. apply IH.
Qed.

(** How a call of the encoder ends does not depend on the message it
    fills. *)
Lemma _package_parameter_same_outcome key v p q :
  same_outcome (_package_parameter key v p) (_package_parameter key v q).
Proof.
  rewrite !_package_parameter_update.
  by destruct (parameter_update key v).
Qed.

Lemma enhancement_item_same_outcome kv o o' :
  same_outcome (enhancement_item kv o) (enhancement_item kv o').
Proof.
  destruct kv as [key v]. destruct (isinstance_list v) eqn:Hv.
  - destruct v as [| | | | |l|]; try discriminate.
    rewrite !enhancement_item_VList.
    destruct (forallb isinstance_int l).
    + unfold extend_size. by destruct (check_all to_int32 l).
    + unfold extend_weights. by destruct (check_all to_float l).
  - rewrite !enhancement_item_other by done.
    apply same_outcome_bind; [apply _package_parameter_same_outcome|done].
Qed.

Lemma enhancement_operation_same_outcome v o o' :
  same_outcome (_package_enhancement_operation v o)
    (_package_enhancement_operation v o').
Proof.
  destruct v as [| | | | | |od]; try done.
  unfold _package_enhancement_operation. simpl.
  apply for_each_same_outcome. apply enhancement_item_same_outcome.
Qed.

Lemma current_dataset_item_same_outcome kv message message' :
  same_outcome (current_dataset_item kv message)
    (current_dataset_item kv message').
Proof.
  destruct kv as [key v]. rewrite !current_dataset_item_eq.
  destruct (truthy v && String.eqb key "operations");
    [|destruct (truthy v && String.eqb key "sampler")].
  - destruct (iter v) as [l|e]; [|done]. simpl.
    by destruct (encode_operators l).
  - apply same_outcome_bind; [apply enhancement_operation_same_outcome|done].
  - apply same_outcome_bind; [apply _package_parameter_same_outcome|done].
Qed.

(** X12: when the encoding of a node raises an exception, it is the
    exception of the first entry, in the order of the keys, whose own turn
    fails: the entries before it are acceptable, the entry alone raises the
    same exception, and the exception does not depend on the message being
    filled. *)
Theorem first_offending_entry (d : dict) (message : DatasetGraph)
    (e : exception) :
  _package_current_dataset (VDict d) message = Err e →
  (∃ d1 kv d2,
     d = d1 ++ kv :: d2 ∧ forallb item_ok d1 = true ∧
     current_dataset_item kv empty_graph = Err e) ∧
  (∀ message', _package_current_dataset (VDict d) message' = Err e).
Proof.
  unfold _package_current_dataset. simpl. intros Hrun. split.
  - apply for_each_Err_split in Hrun as (d1 & kv & d2 & m1 & -> & Hd1 & Hkv).
    exists d1, kv, d2. split; [done|]. split.
    + by eapply current_dataset_Ok_ok.
    + eapply same_outcome_Err; [|exact Hkv].
      apply current_dataset_item_same_outcome.
  - intros message'. eapply same_outcome_Err; [|exact Hrun].
    apply for_each_same_outcome. apply current_dataset_item_same_outcome.
Qed.
(** ** The string lists of a parameter block *)

Lemma _package_parameter_string_lists key v p p' :
  (∀ k l, mapStrList p !! k = Some l → string_list_ok l) →
  _package_parameter key v p = Ok p' →
  ∀ k l, mapStrList p' !! k = Some l → string_list_ok l.
Proof.
  intros Hp Hrun k l.
  apply _package_parameter_Ok_update in Hrun as (update & _ & Hu & ->).
  destruct Hu as [s|b|z|f|strs Hstrs|]; simpl; try by apply Hp.
  rewrite lookup_insert. case_decide as Hk; [|by apply Hp].
  intros [= <-] Hnil. by apply app_eq_nil in Hnil as [_ Hnil].
Qed.

Lemma package_parameters_string_lists l : ∀ p p',
  (∀ k sl, mapStrList p !! k = Some sl → string_list_ok sl) →
  package_parameters l p = Ok p' →
  ∀ k sl, mapStrList p' !! k = Some sl → string_list_ok sl.
Proof.
  unfold package_parameters.
  apply (for_each_invariant
           (λ p, ∀ k sl, mapStrList p !! k = Some sl → string_list_ok sl)).
  intros [key v] p p' _ Hp Hrun.
  by eapply _package_parameter_string_lists.
Qed.

(** X13: a string list in the parameter block of an encoded node is never
    empty and never holds a null: this holds for the root, for every child
    node, and for [_package_current_dataset] from any message whose string
    lists are so. *)
Theorem string_lists_hold_no_null :
  (∀ d message message',
     (∀ k l, mapStrList (parameter message) !! k = Some l →
             string_list_ok l) →
     _package_current_dataset (VDict d) message = Ok message' →
     ∀ k l, mapStrList (parameter message') !! k = Some l →
            string_list_ok l) ∧
  (∀ d g k l,
     package_dataset_graph d = Ok g →
     mapStrList (parameter g) !! k = Some l → string_list_ok l) ∧
  (∀ child node k l,
     encode_child child = Ok node →
     mapStrList (parameter node) !! k = Some l → string_list_ok l).
Proof.
  assert (Hnode : ∀ d message message',
     (∀ k l, mapStrList (parameter message) !! k = Some l →
             string_list_ok l) →
     for_each current_dataset_item d message = Ok message' →
     ∀ k l, mapStrList (parameter message') !! k = Some l →
            string_list_ok l).
  { intros d message message' Hm Hrun.
    apply current_dataset_parameter in Hrun.
    by eapply package_parameters_string_lists. }
  split_and!.
  - intros d message message' Hm Hrun. exact (Hnode d message message' Hm Hrun).
  - intros d g k l Hrun.
    destruct (dict_get "children" d) as [cs|] eqn:Hget.
    + rewrite (package_dataset_graph_present d cs Hget) in Hrun.
      apply bind_Ok in Hrun as ([cs' gc] & Hwalk & Hrun).
      apply walk_children_spec in Hwalk as (_ & nodes & -> & _).
      unfold _package_current_dataset in Hrun. simpl in Hrun.
      eapply Hnode; [|exact Hrun]. simpl. intros k' l'.
      by rewrite lookup_empty.
    + rewrite (package_dataset_graph_absent d Hget) in Hrun.
      injection Hrun as <-. simpl. by rewrite lookup_empty.
  - intros child node k l Hrun.
    apply encode_child_inv in Hrun
      as (d & grandson & cs' & gc & -> & Hget & Hwalk & Hrun).
    apply walk_children_spec in Hwalk as (_ & nodes & -> & _).
    eapply Hnode; [|exact Hrun]. simpl. intros k' l'.
    by rewrite lookup_empty.
Qed.


End encoder.

(** * Examples *)

(** The examples are run with a message library that takes a boolean as 1
    or 0 and rounds to the nearest single; where the library matters, it is
    named. *)
#[local] Existing Instance converting_library.

Lemma boolean_before_integer_witness :
  ∃ message',
    _package_parameter "flag" (VBool true) empty_parameter = Ok message' ∧
    mapBool message' !! "flag" = Some true ∧
    mapInt message' = ∅.
Proof.
  destruct (proj2 (boolean_before_integer "flag" true empty_parameter))
    as (message' & Hrun & Hbool & _ & Hint & _).
  exists message'. split; [exact Hrun|]. split; [exact Hbool | exact Hint].
Defined.

Lemma generic_list_dispatch_witness :
  ∃ message',
    _package_parameter "tag" (VList [VStr "a"; VNone; VStr "b"])
      empty_parameter = Ok message' ∧
    mapStrList message' !! "tag" = Some ["a"; ""; "b"].
Proof.
  destruct (generic_list_dispatch "tag" [VStr "a"; VNone; VStr "b"]
              empty_parameter ltac:(discriminate))
    as (_ & Hlist & _).
  destruct (Hlist ltac:(discriminate) eq_refl)
    as (message' & Hrun & _ & Hfresh & _).
  exists message'. split; [exact Hrun | exact (Hfresh eq_refl)].
Defined.

(** C6 as stated fails: a list of integers under a generic key is not
    stored as a string list, the string-list field raises [TypeError]. *)
Lemma generic_list_of_integers_raises :
  "tag" ≠ "operations" ∧
  _package_parameter "tag" (VList [VInt 1; VInt 2]) empty_parameter
    = Err TypeError ∧
  package_dataset_graph
    [("children", VList []); ("shape", VList [VInt 1; VInt 2])]
    = Err TypeError.
Proof. split; [discriminate|]. split; reflexivity. Qed.

Lemma boolean_list_goes_to_size_witness :
  _package_enhancement_operation
    (VDict [("flags", VList [VBool true; VInt 2; VBool false])])
    empty_operation =
  Ok (mkOperation empty_parameter [1; 2; 0]%Z []).
Proof.
  refine (proj1 (proj2 (proj2
    (boolean_list_goes_to_size "flags" [VBool true; VInt 2; VBool false]
       empty_operation _))) eq_refl _).
  - apply List.Forall_cons; [left; by exists true|].
    apply List.Forall_cons; [right; by exists 2%Z|].
    apply List.Forall_cons; [left; by exists false|].
    apply List.Forall_nil.
  - repeat apply List.Forall_cons; try reflexivity. apply List.Forall_nil.
Defined.

(** C10 as stated fails: whether a list of booleans and integers is
    appended to "size" is up to the field.  A message library that takes no
    boolean for an integer raises [TypeError], and with any library an
    integer beyond 32 bits raises [ValueError]. *)
Lemma boolean_list_not_always_stored :
  _package_enhancement_operation (library := strict_library)
    (VDict [("flags", VList [VBool true; VInt 2; VBool false])])
    empty_operation = Err TypeError ∧
  _package_enhancement_operation (library := converting_library)
    (VDict [("flags", VList [VBool true; VInt 2147483648])])
    empty_operation = Err (ValueError "Value out of range: 2147483648") ∧
  _package_enhancement_operation (library := strict_library)
    (VDict [("flags", VList [VInt 2147483648])])
    empty_operation = Err (ValueError "Value out of range: 2147483648").
Proof. split; [|split]; by vm_compute. Qed.

Lemma operation_list_classification_witness :
  ∃ message',
    _package_enhancement_operation
      (VDict [("num_samples", VList [VInt 10; VInt 20]);
              ("prob",
               VList [VFloat (S754_finite false 7205759403792794 (-56));
                      VFloat (S754_finite false 7205759403792794 (-55))])])
      empty_operation = Ok message' ∧
    size message' = [10; 20]%Z ∧
    weights message' = [S754_finite false 13421773 (-27);
                        S754_finite false 13421773 (-26)].
Proof.
  eexists. split; [reflexivity|].
  destruct (proj2 (proj2 operation_list_classification)
    [("num_samples", VList [VInt 10; VInt 20]);
     ("prob", VList [VFloat (S754_finite false 7205759403792794 (-56));
                     VFloat (S754_finite false 7205759403792794 (-55))])]
    empty_operation _ eq_refl) as (zs & fs & Hzs & Hfs & Hs & Hw & _).
  vm_compute in Hzs, Hfs.
  injection Hzs as <-. injection Hfs as <-.
  split; [exact Hs | exact Hw].
Defined.

(** C5 as stated fails: a list that is not all integers is not always
    appended to "weights": a list of strings raises [TypeError]; a list of
    integers is not always appended to "size": one beyond 32 bits raises
    [ValueError]; and the reals 0.1 and 0.2 are not kept as they are, they
    are rounded to single precision. *)
Lemma operation_list_not_always_stored :
  _package_enhancement_operation
    (VDict [("names", VList [VStr "a"; VStr "b"])]) empty_operation
    = Err TypeError ∧
  _package_enhancement_operation (library := strict_library)
    (VDict [("names", VList [VStr "a"; VStr "b"])]) empty_operation
    = Err TypeError ∧
  _package_enhancement_operation
    (VDict [("size", VList [VInt 2147483648])]) empty_operation
    = Err (ValueError "Value out of range: 2147483648") ∧
  ∃ message',
    _package_enhancement_operation
      (VDict [("prob",
               VList [VFloat (S754_finite false 7205759403792794 (-56));
                      VFloat (S754_finite false 7205759403792794 (-55))])])
      empty_operation = Ok message' ∧
    weights message' ≠ [S754_finite false 7205759403792794 (-56);
                        S754_finite false 7205759403792794 (-55)].
Proof.
  split; [by vm_compute|]. split; [by vm_compute|]. split; [by vm_compute|].
  eexists. split; [reflexivity|]. vm_compute. discriminate.
Qed.

(** C1 as stated fails: a null under "sampler" or under "operations" is
    recorded in the String map of the node as "None". *)
Lemma falsy_structural_key_recorded :
  (∃ g, package_dataset_graph [("children", VList []); ("sampler", VNone)]
          = Ok g ∧
        mapStr (parameter g) !! "sampler" = Some "None") ∧
  (∃ g, package_dataset_graph [("children", VList []); ("operations", VNone)]
          = Ok g ∧
        mapStr (parameter g) !! "operations" = Some "None").
Proof. split; (eexists; split; [reflexivity|by vm_compute]). Qed.

Lemma operations_in_list_order_witness :
  ∃ message',
    _package_current_dataset
      (VDict [("op", VStr "Map");
              ("operations",
               VList [VDict [("kernel_name", VStr "Resize");
                             ("size", VList [VInt 224; VInt 224])];
                      VDict [("kernel_name", VStr "Crop")]])])
      empty_graph = Ok message' ∧
    ∃ ops,
      operations message' = [] ++ ops ∧
      Forall2
        (λ operator o,
           (∃ od, operator = VDict od) ∧
           _package_enhancement_operation operator empty_operation = Ok o)
        [VDict [("kernel_name", VStr "Resize");
                ("size", VList [VInt 224; VInt 224])];
         VDict [("kernel_name", VStr "Crop")]]
        ops.
Proof.
  eexists. split; [reflexivity|].
  exact (proj1 (operations_in_list_order
    [("op", VStr "Map");
     ("operations",
      VList [VDict [("kernel_name", VStr "Resize");
                    ("size", VList [VInt 224; VInt 224])];
             VDict [("kernel_name", VStr "Crop")]])]
    [VDict [("kernel_name", VStr "Resize");
            ("size", VList [VInt 224; VInt 224])];
     VDict [("kernel_name", VStr "Crop")]]
    empty_graph
    ltac:(apply (bool_decide_unpack _); vm_compute; exact I)
    ltac:(right; left)) _ eq_refl).
Defined.

(** C9 as stated fails: a null element in the "operations" list is not
    skipped, the encoding raises [AttributeError]. *)
Lemma null_operation_raises :
  package_dataset_graph
    [("children", VList []);
     ("operations", VList [VNone; VDict [("kernel_name", VStr "Resize")]])]
  = Err AttributeError.
Proof. reflexivity. Qed.

(** The end-to-end example of the specification. *)
Example end_to_end :
  package_dataset_graph
    [("op", VStr "Map");
     ("children",
      VList [VDict [("op", VStr "Source"); ("children", VList []);
                    ("num_parallel_workers", VInt 4)]]);
     ("operations",
      VList [VDict [("kernel_name", VStr "Resize");
                    ("size", VList [VInt 224; VInt 224])]])]
  = Ok (mkDatasetGraph
          [mkDatasetGraph []
             (mkOperationParameter {["op" := "Source"]} ∅
                {["num_parallel_workers" := 4%Z]} ∅ ∅)
             [] empty_operation]
          (mkOperationParameter {["op" := "Map"]} ∅ ∅ ∅ ∅)
          [mkOperation
             (mkOperationParameter {["kernel_name" := "Resize"]} ∅ ∅ ∅ ∅)
             [224; 224]%Z []]
          empty_operation).
Proof. by vm_compute. Qed.

Lemma parameters_after_children_witness :
  package_dataset_graph
    [("op", VStr "Map");
     ("children", VList [VDict [("op", VStr "Source"); ("children", VList [])]])]
  = set_children
      [mkDatasetGraph []
         (mkOperationParameter {["op" := "Source"]} ∅ ∅ ∅ ∅) []
         empty_operation]
      <$> _package_current_dataset (VDict [("op", VStr "Map")]) empty_graph.
Proof.
  destruct (proj2 (parameters_after_children
    [("op", VStr "Map");
     ("children",
      VList [VDict [("op", VStr "Source"); ("children", VList [])]])])
    _ eq_refl) as [_ H].
  exact (proj2 (H _ _ eq_refl)).
Defined.

(** C2 as stated fails: without a "children" key the root carries no
    parameter entry, the same keys beside an empty "children" list are
    encoded. *)
Lemma absent_children_drops_parameters :
  package_dataset_graph [("op", VStr "Map"); ("num_parallel_workers", VInt 4)]
    = Ok empty_graph ∧
  mapStr (parameter empty_graph) !! "op" = None ∧
  mapInt (parameter empty_graph) !! "num_parallel_workers" = None ∧
  ∃ g,
    package_dataset_graph
      [("op", VStr "Map"); ("num_parallel_workers", VInt 4);
       ("children", VList [])] = Ok g ∧
    mapStr (parameter g) !! "op" = Some "Map" ∧
    mapInt (parameter g) !! "num_parallel_workers" = Some 4%Z.
Proof.
  split; [reflexivity|]. split; [reflexivity|]. split; [reflexivity|].
  eexists. split; [reflexivity|]. split; by vm_compute.
Qed.

Lemma truthy_structural_key_excluded_witness :
  ∃ g,
    package_dataset_graph
      [("op", VStr "Map"); ("children", VList []);
       ("sampler", VDict [("num_samples", VInt 3)])] = Ok g ∧
    no_entry "sampler" (parameter g).
Proof.
  eexists. split; [reflexivity|].
  refine (proj1 (proj2 (proj2
    (truthy_structural_key_excluded "sampler" (or_intror eq_refl))))
    [("op", VStr "Map"); ("children", VList []);
     ("sampler", VDict [("num_samples", VInt 3)])] _ _ eq_refl).
  intros value Hin.
  apply elem_of_cons in Hin as [Hin|Hin]; [discriminate Hin|].
  apply elem_of_cons in Hin as [Hin|Hin]; [discriminate Hin|].
  apply elem_of_cons in Hin as [Hin|Hin]; [by injection Hin as ->|].
  by apply elem_of_nil in Hin.
Defined.

Lemma one_child_per_truthy_element_witness :
  ∃ g,
    package_dataset_graph
      [("op", VStr "Map");
       ("children",
        VList [VDict [];
               VDict [("op", VStr "Source"); ("children", VList [])]])]
      = Ok g ∧
    Forall2 (λ child node, encode_child child = Ok node)
      [VDict [("op", VStr "Source"); ("children", VList [])]]
      (children g).
Proof.
  eexists. split; [reflexivity|].
  exact (proj1 one_child_per_truthy_element
    [("op", VStr "Map");
     ("children",
      VList [VDict [];
             VDict [("op", VStr "Source"); ("children", VList [])]])]
    _ eq_refl).
Defined.

(** C3 as stated fails: an empty child in a non-empty "children" list gives
    no child node; a nested child without the "children" key raises
    [KeyError], the same child with an empty "children" list is encoded. *)
Lemma children_counterexample :
  (∃ g, package_dataset_graph [("children", VList [VDict []])] = Ok g ∧
        children g = []) ∧
  package_dataset_graph
    [("children", VList [VDict [("op", VStr "Source")]])]
    = Err (KeyError "children") ∧
  (∃ g node,
     package_dataset_graph
       [("children",
         VList [VDict [("op", VStr "Source"); ("children", VList [])]])]
       = Ok g ∧
     children g = [node] ∧ children node = []).
Proof.
  split; [|split].
  - eexists. split; reflexivity.
  - reflexivity.
  - eexists. eexists. split; [reflexivity|]. split; reflexivity.
Qed.

Lemma walk_removes_children_entries_witness :
  ∃ cs' message',
    _package_children
      (VList [VDict [("op", VStr "Source"); ("children", VList [])]])
      empty_graph = Ok (cs', message') ∧
    cs' = VList [VDict [("op", VStr "Source")]].
Proof.
  eexists. eexists. split; [reflexivity|].
  exact (proj1 walk_removes_children_entries
    (VList [VDict [("op", VStr "Source"); ("children", VList [])]])
    empty_graph _ _ eq_refl).
Defined.

(** C8 as stated fails: after the walk the child map has lost its
    "children" entry. *)
Lemma walk_mutates_child_maps :
  ∃ cs' message',
    _package_children
      (VList [VDict [("op", VStr "Source"); ("children", VList [])]])
      empty_graph = Ok (cs', message') ∧
    cs' ≠ VList [VDict [("op", VStr "Source"); ("children", VList [])]].
Proof.
  eexists. eexists. split; [reflexivity|]. discriminate.
Qed.

Lemma unsupported_value_error_witness :
  package_dataset_graph
    [("children",
      VList [VDict [("children", VList []);
                    ("sampler", VDict [("cfg", VDict [("x", VInt 1)])])]])]
    = Err (ValueError "Parameter cfg is not supported in event package.") ∧
  ∃ value,
    entry_of "cfg" value
      (VDict
         [("children",
           VList [VDict [("children", VList []);
                         ("sampler",
                          VDict [("cfg", VDict [("x", VInt 1)])])]])]) ∧
    unsupported "cfg" value = true.
Proof.
  split; [reflexivity|].
  exact (proj2 (proj2 unsupported_value_error)
    [("children",
      VList [VDict [("children", VList []);
                    ("sampler", VDict [("cfg", VDict [("x", VInt 1)])])]])]
    "cfg" eq_refl).
Defined.

(** C7 as stated fails: a child map without the "children" key raises
    [KeyError], a "sampler" that is not a map raises [AttributeError], an
    "operations" value that cannot be iterated raises [TypeError], an integer
    beyond 32 bits raises the [ValueError] of the integer field and a list
    of integers under a generic key the [TypeError] of the string-list
    field. *)
Lemma other_exceptions_reachable :
  package_dataset_graph
    [("op", VStr "Map");
     ("children",
      VList [VDict [("op", VStr "Source"); ("num_parallel_workers", VInt 4)]])]
    = Err (KeyError "children") ∧
  package_dataset_graph
    [("children", VList []); ("sampler", VStr "RandomSampler")]
    = Err AttributeError ∧
  package_dataset_graph [("children", VList []); ("operations", VInt 5)]
    = Err TypeError ∧
  package_dataset_graph [("children", VList []); ("n", VInt 2147483648)]
    = Err (ValueError "Value out of range: 2147483648") ∧
  package_dataset_graph
    [("children", VList []); ("tag", VList [VInt 1; VInt 2])]
    = Err TypeError ∧
  (¬ ∃ key, KeyError "children" = ValueError (unsupported_message key)) ∧
  (¬ ∃ key, ValueError "Value out of range: 2147483648"
              = ValueError (unsupported_message key)).
Proof.
  split; [reflexivity|]. split; [reflexivity|]. split; [reflexivity|].
  split; [by vm_compute|]. split; [reflexivity|]. split.
  - intros [key H]. discriminate.
  - intros [key H]. unfold unsupported_message in H. simpl in H.
    discriminate.
Qed.

Lemma node_parameters_read_back_witness :
  ∃ message',
    _package_current_dataset
      (VDict [("op", VStr "Map"); ("shuffle", VBool false);
              ("sampler", VNone); ("columns", VList [VStr "image"; VNone])])
      empty_graph = Ok message' ∧
    mapStr (parameter message') !! "sampler" = Some "None" ∧
    mapStrList (parameter message') !! "columns" = Some ["image"; ""].
Proof.
  eexists. split; [reflexivity|]. split.
  - refine (node_parameters_read_back
      [("op", VStr "Map"); ("shuffle", VBool false);
       ("sampler", VNone); ("columns", VList [VStr "image"; VNone])]
      empty_graph _ "sampler" VNone _ eq_refl _ _).
    + apply (bool_decide_unpack _). vm_compute. exact I.
    + right; right; left.
    + by left.
  - refine (proj2 (node_parameters_read_back
      [("op", VStr "Map"); ("shuffle", VBool false);
       ("sampler", VNone); ("columns", VList [VStr "image"; VNone])]
      empty_graph _ "columns" (VList [VStr "image"; VNone]) _ eq_refl _ _)).
    + apply (bool_decide_unpack _). vm_compute. exact I.
    + right; right; right; left.
    + right. split; discriminate.
Defined.

Lemma operation_encoding_by_field_witness :
  ∃ p zs fs,
    package_parameters
      (scalar_items
         [("kernel_name", VStr "Resize");
          ("size", VList [VInt 224; VInt 224]);
          ("prob", VList [VInt 1; VFloat (S754_finite false 1 (-1))])])
      empty_parameter = Ok p ∧
    check_all to_int32 [VInt 224; VInt 224] = Ok zs ∧
    check_all to_float [VInt 1; VFloat (S754_finite false 1 (-1))] = Ok fs ∧
    mkOperation
      (mkOperationParameter {["kernel_name" := "Resize"]} ∅ ∅ ∅ ∅)
      [224; 224]%Z
      [S754_finite false 8388608 (-23); S754_finite false 8388608 (-24)]
    = mkOperation p ([] ++ zs) ([] ++ fs).
Proof.
  exact (operation_encoding_by_field
    [("kernel_name", VStr "Resize");
     ("size", VList [VInt 224; VInt 224]);
     ("prob", VList [VInt 1; VFloat (S754_finite false 1 (-1))])]
    empty_operation _ ltac:(by vm_compute)).
Defined.

Lemma operation_parameters_read_back_witness :
  ∃ o',
    _package_enhancement_operation
      (VDict [("kernel_name", VStr "Resize");
              ("size", VList [VInt 224; VInt 224]);
              ("interpolation", VNone)])
      empty_operation = Ok o' ∧
    mapStr (operationParam o') !! "interpolation" = Some "None".
Proof.
  eexists. split; [reflexivity|].
  refine (operation_parameters_read_back
    [("kernel_name", VStr "Resize"); ("size", VList [VInt 224; VInt 224]);
     ("interpolation", VNone)]
    empty_operation _ "interpolation" VNone _ eq_refl _ eq_refl).
  - apply (bool_decide_unpack _). vm_compute. exact I.
  - right; right; left.
Defined.

Lemma root_parameters_come_from_input_witness :
  ∃ value,
    ("op", value)
      ∈ [("op", VStr "Map"); ("children", VList []); ("tags", VList [])] ∧
    (truthy value = false ∨ ("op" ≠ "operations" ∧ "op" ≠ "sampler")) ∧
    value ≠ VList [] ∧ unsupported "op" value = false.
Proof.
  refine (root_parameters_come_from_input
    [("op", VStr "Map"); ("children", VList []); ("tags", VList [])]
    _ "op" eq_refl _).
  intros (H & _). vm_compute in H. discriminate H.
Defined.

Lemma one_map_per_key_witness :
  ∃ g,
    package_dataset_graph
      [("op", VStr "Map"); ("children", VList []); ("shuffle", VBool true)]
      = Ok g ∧
    (entry_count "shuffle" (parameter g) ≤ 1)%nat.
Proof.
  eexists. split; [reflexivity|].
  refine (proj1 one_map_per_key
    [("op", VStr "Map"); ("children", VList []); ("shuffle", VBool true)]
    _ "shuffle" _ eq_refl).
  apply (bool_decide_unpack _). vm_compute. exact I.
Defined.

Lemma key_order_is_irrelevant_witness :
  ∃ g,
    package_dataset_graph
      [("op", VStr "Map"); ("children", VList []); ("shuffle", VBool true)]
      = Ok g ∧
    package_dataset_graph
      [("shuffle", VBool true); ("op", VStr "Map"); ("children", VList [])]
      = Ok g.
Proof.
  eexists. split; [reflexivity|].
  refine (proj2 (key_order_is_irrelevant
    [("op", VStr "Map"); ("children", VList []); ("shuffle", VBool true)]
    [("shuffle", VBool true); ("op", VStr "Map"); ("children", VList [])]
    _ _) _ eq_refl).
  - apply (bool_decide_unpack _). vm_compute. exact I.
  - etrans; [|apply perm_swap]. apply perm_skip. apply perm_swap.
Defined.

Lemma encoded_node_is_acceptable_witness :
  forallb item_ok
    [("op", VStr "Map"); ("operations", VNone);
     ("sampler", VDict [("num_samples", VInt 3)])] = true.
Proof.
  exact (encoded_node_is_acceptable
    [("op", VStr "Map"); ("operations", VNone);
     ("sampler", VDict [("num_samples", VInt 3)])]
    empty_graph _ eq_refl).
Defined.

Lemma encoded_input_is_accepted_witness :
  accepted
    [("op", VStr "Map");
     ("children",
      VList [VDict [("op", VStr "Source"); ("children", VList [])]]);
     ("operations", VList [VDict [("kernel_name", VStr "Resize")]])]
  = true.
Proof.
  exact (encoded_input_is_accepted
    [("op", VStr "Map");
     ("children",
      VList [VDict [("op", VStr "Source"); ("children", VList [])]]);
     ("operations", VList [VDict [("kernel_name", VStr "Resize")]])]
    _ eq_refl).
Defined.

Lemma sampler_of_node_witness :
  ∃ message',
    _package_current_dataset
      (VDict [("sampler",
               VDict [("num_samples", VInt 3); ("weights", VList [VInt 1])]);
              ("op", VStr "Map")])
      empty_graph = Ok message' ∧
    _package_enhancement_operation
      (VDict [("num_samples", VInt 3); ("weights", VList [VInt 1])])
      empty_operation = Ok (sampler message').
Proof.
  eexists. split; [reflexivity|].
  refine (proj1 (sampler_of_node
    [("sampler",
      VDict [("num_samples", VInt 3); ("weights", VList [VInt 1])]);
     ("op", VStr "Map")]
    empty_graph _ eq_refl)
    (VDict [("num_samples", VInt 3); ("weights", VList [VInt 1])])
    _ _ eq_refl).
  - apply (bool_decide_unpack _). vm_compute. exact I.
  - left.
Defined.

Lemma loops_only_append_witness :
  ∃ cs' message',
    _package_children
      (VList [VDict []; VDict [("op", VStr "Source"); ("children", VNone)]])
      (add_child empty_graph empty_graph) = Ok (cs', message') ∧
    ∃ nodes,
      children message' = [empty_graph] ++ nodes ∧ length nodes = 1.
Proof.
  eexists. eexists. split; [reflexivity|].
  exact (proj2 (proj2 (proj2 (proj1 loops_only_append
    (VList [VDict []; VDict [("op", VStr "Source"); ("children", VNone)]])
    (add_child empty_graph empty_graph) _ _ eq_refl)))).
Defined.

Lemma second_walk_raises_witness :
  ∃ cs' message',
    _package_children
      (VList [VDict [("op", VStr "Source"); ("children", VList [])]])
      empty_graph = Ok (cs', message') ∧
    _package_children cs' empty_graph = Err (KeyError "children").
Proof.
  eexists. eexists. split; [reflexivity|].
  refine (second_walk_raises
    [VDict [("op", VStr "Source"); ("children", VList [])]]
    empty_graph _ _ _ eq_refl _ empty_graph).
  - intros d Hd.
    apply elem_of_cons in Hd as [Hd|Hd]; [|by apply elem_of_nil in Hd].
    injection Hd as ->.
    apply (bool_decide_unpack _). vm_compute. exact I.
  - eexists. split; [left|]. reflexivity.
Defined.

Lemma first_offending_entry_witness :
  ∃ d1 kv d2,
    [("op", VStr "Map"); ("n", VInt 2147483648);
     ("cfg", VDict [("x", VInt 1)])] = d1 ++ kv :: d2 ∧
    forallb item_ok d1 = true ∧
    current_dataset_item kv empty_graph
      = Err (ValueError "Value out of range: 2147483648").
Proof.
  exact (proj1 (first_offending_entry
    [("op", VStr "Map"); ("n", VInt 2147483648);
     ("cfg", VDict [("x", VInt 1)])]
    empty_graph _ ltac:(by vm_compute))).
Defined.

Lemma string_lists_hold_no_null_witness :
  ∃ g,
    package_dataset_graph
      [("children", VList []); ("columns", VList [VNone; VStr "label"])]
      = Ok g ∧
    string_list_ok [""; "label"].
Proof.
  eexists. split; [reflexivity|].
  refine (proj1 (proj2 string_lists_hold_no_null)
    [("children", VList []); ("columns", VList [VNone; VStr "label"])]
    _ "columns" _ eq_refl _).
  by vm_compute.
Defined.

